(** * nerve-visuals: the shared NerveData model and the scene engines

  A shallow embedding of the JavaScript sources
    - the shared data module (class [NerveData]) and the clock sketch,
    - the ocean ("depth") sketch with its flow field,
    - [fracture/sketch.js] and [pulse/sketch.js].

  JavaScript numbers are idealised as real numbers ([R]): every
  arithmetic operation is exact, there is no NaN and no rounding.
  The p5.js helpers ([lerp], [constrain], [map], [max], [pow], ...)
  are library code; they are written out here from their p5.js
  definitions.  [noise] (p5's Perlin noise) is kept abstract, and
  [millis()] is an argument: one reading per frame.  Drawing calls and
  console output are left out.  The asynchronous [fetchLive] is split
  at its only suspension: starting it changes nothing, and everything
  it reads or writes happens when its request settles. *)

From Stdlib Require Import Reals Lra Lia ZArith.
From stdpp Require Import base option list strings gmap pretty.

Local Open Scope R_scope.
#[local] Set Warnings "-register-all".

(** ** JavaScript numbers and the p5.js numeric helpers *)

Module JsNum.

(** [Math.trunc]: the integer part, rounding toward zero. *)
Definition trunc (x : R) : Z :=
  if Rle_dec 0 x then Int_part x else (- Int_part (- x))%Z.

(** The remainder operator [x % y] on numbers: the result has the sign
    of the dividend, [x - y * trunc (x / y)].  Used only with a
    non-zero constant divisor ([1] and [TWO_PI]). *)
Definition fmod (x y : R) : R := x - y * IZR (trunc (x / y)).

Definition TWO_PI : R := 2 * PI.
Definition HALF_PI : R := PI / 2.

(** p5.js [lerp(start, stop, amt)]. *)
Definition lerp (start stop amt : R) : R := amt * (stop - start) + start.

(** p5.js [constrain(n, low, high)] is
    [Math.max(Math.min(n, high), low)]. *)
Definition constrain (n low high : R) : R := Rmax (Rmin n high) low.

(** p5.js [map(n, start1, stop1, start2, stop2)], without clamping. *)
Definition map (n start1 stop1 start2 stop2 : R) : R :=
  (n - start1) / (stop1 - start1) * (stop2 - start2) + start2.

(** [atan2(y, x)], from [atan] by quadrant. *)
Definition atan2 (y x : R) : R :=
  if Rlt_dec 0 x then atan (y / x)
  else if Rlt_dec x 0 then
         (if Rle_dec 0 y then atan (y / x) + PI else atan (y / x) - PI)
  else if Rlt_dec 0 y then PI / 2
  else if Rlt_dec y 0 then - (PI / 2)
  else 0.

End JsNum.

Import JsNum.


(** ** JSON values

    What [JSON.parse] returns, plus [undefined] for absent properties.
    The properties of an object are listed in enumeration order and
    have distinct keys. *)

Module Json.

Inductive JsVal : Type :=
| JUndefined
| JNull
| JBool (b : bool)
| JNum (x : R)
| JStr (s : string)
| JArr (items : list JsVal)
| JObj (props : list (string * JsVal)).

(** Truthiness, as tested by [!v], [v && ...] and [v || ...]. *)
Definition truthy (v : JsVal) : bool :=
  match v with
  | JUndefined | JNull => false
  | JBool b => b
  | JNum x => if Req_dec_T x 0 then false else true
  | JStr s => negb (String.eqb s "")
  | JArr _ | JObj _ => true
  end.

(** [typeof v === 'number'] *)
Definition isNumber (v : JsVal) : bool :=
  match v with JNum _ => true | _ => false end.

(** [typeof v === 'object'] (true of [null] as well). *)
Definition isObjectType (v : JsVal) : bool :=
  match v with JNull | JArr _ | JObj _ => true | _ => false end.

(** Own-property lookup in a property list. *)
Fixpoint lookupOwn {A : Type} (k : string) (props : list (string * A)) : option A :=
  match props with
  | [] => None
  | (k', v) :: rest => if String.eqb k k' then Some v else lookupOwn k rest
  end.

(** The property read [v.k] for the fixed names the code reads
    ([edge_score], [regime], [fragility_ratio], [momentum], [timestamp],
    [domain_scores], [score]); none of them is inherited from a
    built-in prototype, so the read is [undefined] unless [v] is an
    object that owns [k].  [None] is the [TypeError] raised when [v] is
    [null] or [undefined]. *)
Definition getField (v : JsVal) (k : string) : option JsVal :=
  match v with
  | JUndefined | JNull => None
  | JObj props => Some (default JUndefined (lookupOwn k props))
  | _ => Some JUndefined
  end.

(** The key/value pairs a [for (let d in v)] loop visits, with
    [v[d]]. *)
Definition forInEntries (v : JsVal) : list (string * JsVal) :=
  match v with
  | JObj props => props
  | JArr items => imap (fun i x => (pretty i, x)) items
  | _ => []
  end.

(** [v || d] *)
Definition orElse (v d : JsVal) : JsVal := if truthy v then v else d.

(** The names every plain object inherits from [Object.prototype];
    reading any of them from an object literal gives a truthy value. *)
Definition objectPrototypeNames : list string :=
  [ "constructor"; "__defineGetter__"; "__defineSetter__"; "hasOwnProperty";
    "__lookupGetter__"; "__lookupSetter__"; "isPrototypeOf";
    "propertyIsEnumerable"; "toString"; "valueOf"; "__proto__";
    "toLocaleString" ]%string.

End Json.

Import Json.

(** ** The shared data module: class [NerveData] *)

Module Nerve.

(** The [{ score: x }] objects live in a store, because
    [this.targetDomains = { ...this.domains }] is a shallow copy: until
    a target entry is replaced, [targetDomains[d]] and [domains[d]] are
    the same object. *)
Abbreviation Loc := nat (only parsing).

(** One entry of [this.simLevels]. *)
Record SimLevel := mkSimLevel {
  edge : R;
  sim_regime : string;
  sim_fragility : R;
  sim_domains : list (string * R)
}.

Definition simLevels : list SimLevel :=
  [ mkSimLevel 0.08 "CALM" 0.05
      [("Markets", 0.05); ("Climate", 0.03); ("Information", 0.04); ("Social/Conflict", 0.02); ("Supply Chain", 0.1)];
    mkSimLevel 0.22 "CALM" 0.15
      [("Markets", 0.18); ("Climate", 0.08); ("Information", 0.15); ("Social/Conflict", 0.12); ("Supply Chain", 0.25)];
    mkSimLevel 0.38 "ELEVATED" 0.35
      [("Markets", 0.35); ("Climate", 0.15); ("Information", 0.32); ("Social/Conflict", 0.28); ("Supply Chain", 0.45)];
    mkSimLevel 0.52 "ELEVATED" 0.50
      [("Markets", 0.55); ("Climate", 0.25); ("Information", 0.48); ("Social/Conflict", 0.42); ("Supply Chain", 0.55)];
    mkSimLevel 0.65 "STRESSED" 0.65
      [("Markets", 0.72); ("Climate", 0.38); ("Information", 0.62); ("Social/Conflict", 0.58); ("Supply Chain", 0.68)];
    mkSimLevel 0.78 "STRESSED" 0.78
      [("Markets", 0.82); ("Climate", 0.55); ("Information", 0.75); ("Social/Conflict", 0.72); ("Supply Chain", 0.78)];
    mkSimLevel 0.88 "CRITICAL" 0.88
      [("Markets", 0.92); ("Climate", 0.72); ("Information", 0.88); ("Social/Conflict", 0.85); ("Supply Chain", 0.9)];
    mkSimLevel 0.96 "CRITICAL" 0.95
      [("Markets", 0.98); ("Climate", 0.88); ("Information", 0.95); ("Social/Conflict", 0.94); ("Supply Chain", 0.97)] ]%string.

Definition lerpSpeed : R := 0.02.
Definition fetchInterval : R := 60000.

(** The mutable fields of a [NerveData] instance.  [fragility],
    [momentum], [regime] and [lastUpdate] hold whatever the payload
    carried, so they are JSON values; [domains] keeps its insertion
    order (it is the order of [getDomainNames]); only own properties of
    [targetDomains] are recorded. *)
Record NerveData := mkNerveData {
  heap : list R;
  edgeScore : R;
  fragility : JsVal;
  momentum : JsVal;
  regime : JsVal;
  domains : list (string * Loc);
  lastUpdate : JsVal;
  simMode : bool;
  apiAvailable : bool;
  simLevel : Z;
  targetEdge : R;
  targetDomains : gmap string Loc;
  lastFetch : R
}.

Definition with_heap (h : list R) (s : NerveData) : NerveData :=
  mkNerveData h (edgeScore s) (fragility s) (momentum s) (regime s) (domains s)
    (lastUpdate s) (simMode s) (apiAvailable s) (simLevel s) (targetEdge s)
    (targetDomains s) (lastFetch s).
Definition with_edgeScore (x : R) (s : NerveData) : NerveData :=
  mkNerveData (heap s) x (fragility s) (momentum s) (regime s) (domains s)
    (lastUpdate s) (simMode s) (apiAvailable s) (simLevel s) (targetEdge s)
    (targetDomains s) (lastFetch s).
Definition with_fragility (v : JsVal) (s : NerveData) : NerveData :=
  mkNerveData (heap s) (edgeScore s) v (momentum s) (regime s) (domains s)
    (lastUpdate s) (simMode s) (apiAvailable s) (simLevel s) (targetEdge s)
    (targetDomains s) (lastFetch s).
Definition with_momentum (v : JsVal) (s : NerveData) : NerveData :=
  mkNerveData (heap s) (edgeScore s) (fragility s) v (regime s) (domains s)
    (lastUpdate s) (simMode s) (apiAvailable s) (simLevel s) (targetEdge s)
    (targetDomains s) (lastFetch s).
Definition with_regime (v : JsVal) (s : NerveData) : NerveData :=
  mkNerveData (heap s) (edgeScore s) (fragility s) (momentum s) v (domains s)
    (lastUpdate s) (simMode s) (apiAvailable s) (simLevel s) (targetEdge s)
    (targetDomains s) (lastFetch s).
Definition with_lastUpdate (v : JsVal) (s : NerveData) : NerveData :=
  mkNerveData (heap s) (edgeScore s) (fragility s) (momentum s) (regime s) (domains s)
    v (simMode s) (apiAvailable s) (simLevel s) (targetEdge s)
    (targetDomains s) (lastFetch s).
Definition with_simMode (b : bool) (s : NerveData) : NerveData :=
  mkNerveData (heap s) (edgeScore s) (fragility s) (momentum s) (regime s) (domains s)
    (lastUpdate s) b (apiAvailable s) (simLevel s) (targetEdge s)
    (targetDomains s) (lastFetch s).
Definition with_apiAvailable (b : bool) (s : NerveData) : NerveData :=
  mkNerveData (heap s) (edgeScore s) (fragility s) (momentum s) (regime s) (domains s)
    (lastUpdate s) (simMode s) b (simLevel s) (targetEdge s)
    (targetDomains s) (lastFetch s).
Definition with_simLevel (n : Z) (s : NerveData) : NerveData :=
  mkNerveData (heap s) (edgeScore s) (fragility s) (momentum s) (regime s) (domains s)
    (lastUpdate s) (simMode s) (apiAvailable s) n (targetEdge s)
    (targetDomains s) (lastFetch s).
Definition with_targetEdge (x : R) (s : NerveData) : NerveData :=
  mkNerveData (heap s) (edgeScore s) (fragility s) (momentum s) (regime s) (domains s)
    (lastUpdate s) (simMode s) (apiAvailable s) (simLevel s) x
    (targetDomains s) (lastFetch s).
Definition with_targetDomains (t : gmap string Loc) (s : NerveData) : NerveData :=
  mkNerveData (heap s) (edgeScore s) (fragility s) (momentum s) (regime s) (domains s)
    (lastUpdate s) (simMode s) (apiAvailable s) (simLevel s) (targetEdge s)
    t (lastFetch s).
Definition with_lastFetch (x : R) (s : NerveData) : NerveData :=
  mkNerveData (heap s) (edgeScore s) (fragility s) (momentum s) (regime s) (domains s)
    (lastUpdate s) (simMode s) (apiAvailable s) (simLevel s) (targetEdge s)
    (targetDomains s) x.

(** The state the constructor leaves behind (it also starts
    [tryInitialFetch], whose fetch settles later).  The five score
    objects are shared by [domains] and [targetDomains]. *)
Definition newNerveData : NerveData :=
  let ds := [("Markets", 0); ("Climate", 1); ("Information", 2);
             ("Social/Conflict", 3); ("Supply Chain", 4)]%string%nat in
  {| heap := [0.01; 0.01; 0.01; 0.01; 0.5];
     edgeScore := 0.1;
     fragility := JNum 0;
     momentum := JNum 0;
     regime := JStr "CALM";
     domains := ds;
     lastUpdate := JNull;
     simMode := true;
     apiAvailable := false;
     simLevel := 0%Z;
     targetEdge := 0.1;
     targetDomains := list_to_map ds;
     lastFetch := 0 |}.

(** [getDomainNames()] *)
Definition getDomainNames (s : NerveData) : list string := (domains s).*1.

(** The displayed score [this.domains[d].score] and the score it is
    chasing, [this.targetDomains[d].score]. *)
Definition domainScore (s : NerveData) (d : string) : option R :=
  l ← lookupOwn d (domains s); heap s !! l.
Definition targetScore (s : NerveData) (d : string) : option R :=
  l ← targetDomains s !! d; heap s !! l.

(** *** fetchLive *)

(** How the request of [fetchLive] ends.  [FetchRejected name] is a
    rejected [fetch] or body read ([name] is [e.name], ["AbortError"]
    after the 8 s timeout); [FetchResponse ok ct body] is a response
    with [resp.ok], its [content-type] header and the result of
    [JSON.parse] on its text ([None] when the parser throws). *)
Inductive FetchResult : Type :=
| FetchRejected (name : string)
| FetchResponse (ok : bool) (contentType : option string) (body : option JsVal).

(** [!contentType || !contentType.includes('application/json')] negated. *)
Definition isJsonContentType (ct : option string) : bool :=
  match ct with
  | None => false
  | Some s => negb (String.eqb s "")
              && bool_decide (is_Some (String.index 0 "application/json" s))
  end.

(** The checks of [fetchLive] up to "Validate data structure": the
    payload that passes them, if any. *)
Definition validated (r : FetchResult) : option JsVal :=
  match r with
  | FetchRejected _ => None
  | FetchResponse ok ct body =>
      if negb ok then None
      else if negb (isJsonContentType ct) then None
      else match body with
           | None => None
           | Some data =>
               match getField data "edge_score", getField data "regime" with
               | Some e, Some rg =>
                   if negb (isNumber e) || negb (truthy rg) then None else Some data
               | _, _ => None
               end
           end
  end.

(** [this.domains[d]] as a condition: an own key, or a name inherited
    from [Object.prototype]. *)
Definition domainsHas (s : NerveData) (d : string) : bool :=
  bool_decide (d ∈ (domains s).*1) || bool_decide (d ∈ objectPrototypeNames).

(** [this.targetDomains[d] = { score: x }]: a fresh object is
    allocated; the assignment creates or replaces the own property [d],
    except that assigning ["__proto__"] goes to the inherited setter and
    leaves the own properties alone. *)
Definition setTargetDomain (d : string) (x : R) (s : NerveData) : NerveData :=
  let l := length (heap s) in
  let s := with_heap (heap s ++ [x]) s in
  if String.eqb d "__proto__" then s
  else with_targetDomains (<[d := l]> (targetDomains s)) s.

(** The loop over [data.domain_scores].  The flag is [false] when
    [data.domain_scores[d].score] raised a [TypeError] (the entry is
    [null]); the loop stops there. *)
Fixpoint applyDomainScores (entries : list (string * JsVal)) (s : NerveData)
  : NerveData * bool :=
  match entries with
  | [] => (s, true)
  | (d, v) :: rest =>
      if domainsHas s d then
        match getField v "score" with
        | None => (s, false)
        | Some (JNum x) => applyDomainScores rest (setTargetDomain d x s)
        | Some _ => applyDomainScores rest s
        end
      else applyDomainScores rest s
  end.

(** The block guarded by [if (!this.simMode)]. *)
Definition applyLive (data : JsVal) (s : NerveData) : NerveData * bool :=
  let num v := match v with JNum x => x | _ => 0 end in
  let field k := default JUndefined (getField data k) in
  let s := with_targetEdge (num (field "edge_score")) s in
  let s := with_fragility (orElse (field "fragility_ratio") (JNum 0)) s in
  let s := with_momentum (orElse (field "momentum") (JNum 0)) s in
  let s := with_regime (field "regime") s in
  let s := with_lastUpdate (field "timestamp") s in
  let ds := field "domain_scores" in
  if truthy ds && isObjectType ds then applyDomainScores (forInEntries ds) s
  else (s, true).

(** The [catch] block. *)
Definition fetchFailed (s : NerveData) : NerveData :=
  let s := with_apiAvailable false s in
  if negb (simMode s) then with_simMode true s else s.

(** [fetchLive], from the moment its request settles: the new state and
    the value the promise resolves to ([None] is [null]).  Nothing is
    read or written before that moment. *)
Definition fetchLive (r : FetchResult) (s : NerveData) : NerveData * option JsVal :=
  match validated r with
  | None => (fetchFailed s, None)
  | Some data =>
      let '(s, completed) := if negb (simMode s) then applyLive data s else (s, true) in
      if completed then (with_apiAvailable true s, Some data)
      else (fetchFailed s, None)
  end.

(** [tryInitialFetch], from the moment its [fetchLive] settles. *)
Definition tryInitialFetch (r : FetchResult) (s : NerveData) : NerveData :=
  let '(s, data) := fetchLive r s in
  match data with
  | Some d =>
      match getField d "edge_score" with
      | Some JUndefined | None => s
      | Some _ => with_simMode false (with_apiAvailable true s)
      end
  | None => s
  end.

(** *** setSimLevel, nextSimLevel, toggleSimMode *)

(** [this.simLevels[i]] for an integer [i]. *)
Definition simLevelAt (i : Z) : option SimLevel :=
  if (i <? 0)%Z then None else simLevels !! Z.to_nat i.

(** The body of the loop over [sim.domains].  The keys of a preset are
    the five domain names, none of which is inherited, so
    [this.targetDomains[d]] is truthy exactly when [d] is an own key. *)
Definition applyPreset (s : NerveData) (e : string * R) : NerveData :=
  let '(d, x) := e in
  if bool_decide (is_Some (targetDomains s !! d)) then setTargetDomain d x s else s.

(** [setSimLevel(level)] for an integer [level]; the flag is [false]
    when [sim] is [undefined] and [sim.edge] raised a [TypeError]. *)
Definition setSimLevel (level : Z) (s : NerveData) : NerveData * bool :=
  let s := with_simLevel (Z.rem level (Z.of_nat (length simLevels))) s in
  let sim := simLevelAt (simLevel s) in
  let s := with_simMode true s in
  match sim with
  | None => (s, false)
  | Some sim =>
      let s := with_targetEdge (edge sim) s in
      let s := with_regime (JStr (sim_regime sim)) s in
      let s := with_fragility (JNum (sim_fragility sim)) s in
      (foldl applyPreset s (sim_domains sim), true)
  end.

Definition nextSimLevel (s : NerveData) : NerveData * bool :=
  setSimLevel (simLevel s + 1) s.

(** [toggleSimMode()]; the flag tells whether [this.fetchLive()] was
    called. *)
Definition toggleSimMode (s : NerveData) : NerveData * bool :=
  if apiAvailable s then
    let s := with_simMode (negb (simMode s)) s in
    if negb (simMode s) then (s, true) else (s, false)
  else (s, false).

(** *** update *)

(** One turn of the loop over [this.domains].  The keys of
    [this.domains] are the five domain names, none of which is
    inherited, so [this.targetDomains[d]] is truthy exactly when [d] is
    an own key of [targetDomains]. *)
Definition smoothDomain (t : gmap string Loc) (h : list R) (e : string * Loc) : list R :=
  match t !! e.1 with
  | Some l' =>
      match h !! e.2, h !! l' with
      | Some x, Some y => <[e.2 := lerp x y lerpSpeed]> h
      | _, _ => h
      end
  | None => h
  end.

(** The cell a turn of the loop writes, in terms of the store before
    the turn. *)
Definition smoothed (t : gmap string Loc) (h : list R) (e : string * Loc) : option R :=
  match t !! e.1 with
  | Some l' =>
      match h !! e.2, h !! l' with
      | Some x, Some y => Some (lerp x y lerpSpeed)
      | _, _ => h !! e.2
      end
  | None => h !! e.2
  end.

(** No target object is the displayed object of another entry. *)
Definition unshared (t : gmap string Loc) (ds : list (string * Loc)) : Prop :=
  forall d l l', (d, l) ∈ ds -> t !! d = Some l' -> l' = l \/ l' ∉ ds.*2.

(** The smoothing half of [update], with the order in which the domain
    entries are visited made explicit. *)
Definition smoothIn (order : list (string * Loc)) (s : NerveData) : NerveData :=
  let s := with_edgeScore (lerp (edgeScore s) (targetEdge s) lerpSpeed) s in
  with_heap (foldl (smoothDomain (targetDomains s)) (heap s) order) s.

(** [update()] at time [now = millis()]; the flag tells whether the
    periodic [this.fetchLive()] was called. *)
Definition update (now : R) (s : NerveData) : NerveData * bool :=
  let s := smoothIn (domains s) s in
  if negb (simMode s) then
    if Rgt_dec (now - lastFetch s) fetchInterval
    then (with_lastFetch now s, true)
    else (s, false)
  else (s, false).

(** *** The events of a session *)

Inductive Event : Type :=
| Tick (now : R)                       (* [draw] calls [nerve.update()] *)
| FetchSettled (r : FetchResult)       (* a pending [fetchLive] settles *)
| InitialFetchSettled (r : FetchResult)(* the constructor's probe settles *)
| MousePressed                         (* [simMode = true; nextSimLevel()] *)
| KeyPressedSpace                      (* [toggleSimMode()] *)
| SetSimLevel (level : Z).

Definition step (e : Event) (s : NerveData) : NerveData :=
  match e with
  | Tick now => (update now s).1
  | FetchSettled r => (fetchLive r s).1
  | InitialFetchSettled r => tryInitialFetch r s
  | MousePressed => (nextSimLevel (with_simMode true s)).1
  | KeyPressedSpace => (toggleSimMode s).1
  | SetSimLevel level => (setSimLevel level s).1
  end.

Definition run (es : list Event) (s : NerveData) : NerveData :=
  foldl (fun s e => step e s) s es.

(** [n] consecutive calls of [update], at the given times. *)
Definition ticks (nows : list R) (s : NerveData) : NerveData :=
  run (Tick <$> nows) s.

(** A settled fetch counts as successful when [fetchLive] resolves to
    the payload. *)
Definition fetchSucceeds (r : FetchResult) (s : NerveData) : bool :=
  bool_decide (is_Some (fetchLive r s).2).

(** Invariant of the store: the five domain entries point to distinct
    allocated objects, and each target entry is either still the shared
    object or an object no domain entry points to. *)
Definition domainNames : list string :=
  ["Markets"; "Climate"; "Information"; "Social/Conflict"; "Supply Chain"]%string.

Definition wf (s : NerveData) : Prop :=
  (domains s).*1 = domainNames
  /\ NoDup (domains s).*2
  /\ forall d l, (d, l) ∈ domains s ->
       (l < length (heap s))%nat
       /\ exists l', targetDomains s !! d = Some l'
                     /\ (l' < length (heap s))%nat
                     /\ (l' = l \/ l' ∉ (domains s).*2).

(** [s'] shows what [s] shows: the displayed edge score and the domain
    entries are the same, and the store has only grown. *)
Definition displayKept (s s' : NerveData) : Prop :=
  edgeScore s' = edgeScore s
  /\ domains s' = domains s
  /\ exists extra, heap s' = heap s ++ extra.

(** No fetch that settles along the run [es] from [s] succeeds. *)
Fixpoint noFetchSucceeds (es : list Event) (s : NerveData) : Prop :=
  match es with
  | [] => True
  | e :: rest =>
      match e with
      | FetchSettled r | InitialFetchSettled r => fetchSucceeds r s = false
      | _ => True
      end
      /\ noFetchSucceeds rest (step e s)
  end.

(** *** Sample responses *)

(** The well-formed payload of the specification's example. *)
Definition examplePayload : JsVal :=
  JObj [("edge_score", JNum 0.42); ("regime", JStr "STRESSED");
        ("fragility_ratio", JNum 0.3);
        ("domain_scores", JObj [("Markets", JObj [("score", JNum 0.5)])])]%string.

Definition jsonResponse (data : JsVal) : FetchResult :=
  FetchResponse true (Some "application/json"%string) (Some data).

(** A JSON response whose body, such as [{not json], does not parse. *)
Definition malformedResponse : FetchResult :=
  FetchResponse true (Some "application/json"%string) None.

(** A payload whose only domain key is not a domain but a name every
    object inherits. *)
Definition inheritedKeyPayload : JsVal :=
  JObj [("edge_score", JNum 0.42); ("regime", JStr "STRESSED");
        ("domain_scores", JObj [("constructor", JObj [("score", JNum 0.5)])])]%string.

(** A payload that passes the checks but whose entry for a known
    domain is [null]. *)
Definition nullEntryPayload : JsVal :=
  JObj [("edge_score", JNum 0.42); ("regime", JStr "STRESSED");
        ("domain_scores", JObj [("Markets", JNull)])]%string.

(** The session in LIVE mode: the constructor's probe succeeded. *)
Definition liveSession : NerveData :=
  run [InitialFetchSettled (jsonResponse examplePayload)] newNerveData.

(** *** Observations on runs *)

(** The number of polls that the calls of [update] start along the run
    [es] from [s]. *)
Fixpoint pollsStarted (es : list Event) (s : NerveData) : nat :=
  match es with
  | [] => 0
  | e :: rest =>
      (match e with
       | Tick now => if (update now s).2 then 1 else 0
       | _ => 0
       end + pollsStarted rest (step e s))%nat
  end.

(** Every direct ladder selection of the run asks for a level that is
    not negative. *)
Definition ladderLevelsNonneg (es : list Event) : Prop :=
  forall level, SetSimLevel level ∈ es -> (0 <= level)%Z.

(** The value an entry of [data.domain_scores] gives the target of its
    domain, [None] when the entry has no numeric [score]. *)
Definition entryScore (v : JsVal) : option R :=
  match getField v "score" with
  | Some (JNum x) => Some x
  | _ => None
  end.

End Nerve.

(** ** Short-lived particles

    The clock, fracture and pulse sketches each keep an array of
    particle objects and age it with the same loop: from the last
    index down to 0, advance the particle in place, and [splice] it
    out when its life is used up; afterwards the oldest particles
    beyond a cap are spliced off the front. *)

Module Particles.

Record Particle := mkParticle {
  p_x : R;
  p_y : R;
  p_vx : R;
  p_vy : R;
  p_life : R;
  p_decay : R;
  p_size : R;
  p_color : list R
}.

(** [for (let i = i0 - 1; i >= 0; i--) { let p = ps[i]; advance p;
    if (p.life <= 0) { ps.splice(i, 1); continue; } ... }] *)
Fixpoint spliceLoop (advance : Particle -> Particle) (i0 : nat) (ps : list Particle)
  : list Particle :=
  match i0 with
  | O => ps
  | S i =>
      match ps !! i with
      | Some p =>
          let p := advance p in
          if Rle_dec (p_life p) 0
          then spliceLoop advance i (delete i ps)
          else spliceLoop advance i (<[i := p]> ps)
      | None => spliceLoop advance i ps
      end
  end.

(** The loop from [ps.length - 1], then
    [if (ps.length > cap) ps.splice(0, ps.length - cap)]. *)
Definition ageParticles (advance : Particle -> Particle) (cap : nat) (ps : list Particle)
  : list Particle :=
  let ps := spliceLoop advance (length ps) ps in
  if (cap <? length ps)%nat then drop (length ps - cap) ps else ps.

(** A particle that has life left. *)
Definition alive (p : Particle) : Prop := 0 < p_life p.

#[global] Instance alive_dec (p : Particle) : Decision (alive p) := Rlt_dec 0 (p_life p).

(** The survivors of a step: the advanced particles that have life
    left, in their order. *)
Definition survivors (advance : Particle -> Particle) (ps : list Particle) : list Particle :=
  filter alive (advance <$> ps).

End Particles.

(** ** The ocean sketch: one cell of the flow field *)

Module Ocean.

Definition cellSize : R := 20.

(** An entry of [domainCurrents]. *)
Record DomainCurrent := mkDomainCurrent {
  cur_x : R;
  cur_y : R;
  cur_radius : R;
  cur_strength : R;
  cur_angle : R;
  cur_rotSpeed : R
}.

(** The body of [for (let dc of domainCurrents)] in [updateFlowField]:
    the cell at [(px, py)] blends its angle toward the current's
    direction. *)
Definition currentInfluence (px py : R) (angle : R) (dc : DomainCurrent) : R :=
  let dx := px - cur_x dc in
  let dy := py - cur_y dc in
  let dist := sqrt (dx * dx + dy * dy) in
  if Rlt_dec dist (cur_radius dc) then
    let influence := (1 - dist / cur_radius dc) * cur_strength dc in
    let currentAngle := atan2 dy dx + HALF_PI + cur_angle dc in
    lerp angle currentAngle (influence * 0.5)
  else angle.

(** The "Mouse influence" block. *)
Definition mouseInfluenced (px py mouseX mouseY : R) (angle : R) : R :=
  let mx := mouseX - px in
  let my := mouseY - py in
  let md := sqrt (mx * mx + my * my) in
  if Rlt_dec md 150 then
    let mouseAngle := atan2 my mx + PI in
    let mouseInfluence := (1 - md / 150) * 0.3 in
    lerp angle mouseAngle mouseInfluence
  else angle.

Section FlowField.

(** p5's [noise(x, y, z)]. *)
Variable noise : R -> R -> R -> R.

(** The value stored in [flowField[x + y * cols]] by the loop over the
    cells of [updateFlowField], for the domain currents as that loop
    finds them. *)
Definition cellAngle (edgeScore phase mouseX mouseY : R)
    (domainCurrents : list DomainCurrent) (x y : nat) : R :=
  let noiseScale := 0.003 + edgeScore * 0.008 in
  let turbulence := edgeScore * 2 in
  let px := INR x * cellSize in
  let py := INR y * cellSize in
  let angle := noise (px * noiseScale) (py * noiseScale) phase * TWO_PI * (2 + turbulence) in
  let angle := foldl (currentInfluence px py) angle domainCurrents in
  mouseInfluenced px py mouseX mouseY angle.

End FlowField.

(** What the specification asks of a blend of directions: the result
    lies on the shorter arc from the direction [a] to the direction
    [b], up to whole turns.  [d] is the signed shortest difference. *)
Definition onShortestArc (a b result : R) : Prop :=
  exists (d s : R) (k j : Z),
    - PI <= d <= PI /\ b = a + d + TWO_PI * IZR j
    /\ 0 <= s <= 1 /\ result = a + s * d + TWO_PI * IZR k.

(** [Math.floor] and [Math.ceil]. *)
Definition floor (x : R) : R := IZR (Int_part x).
Definition ceil (x : R) : R := IZR (- Int_part (- x)).

(** [((v % extent) + extent) % extent], the "Wrap" of a current's
    position. *)
Definition wrap (v extent : R) : R := fmod (fmod v extent + extent) extent.

(** The body of the "Update domain currents" loop of
    [updateFlowField], for the current at index [i] and the displayed
    score of its domain. *)
Definition updateCurrent (width height phase : R) (i : nat) (score : R)
    (dc : DomainCurrent) : DomainCurrent :=
  let strength := lerp (cur_strength dc) score 0.02 in
  let angle := cur_angle dc + cur_rotSpeed dc in
  let x := cur_x dc + sin (phase + INR i) * 0.3 in
  let y := cur_y dc + cos (phase * 0.7 + INR i) * 0.2 in
  let x := wrap x width in
  let y := wrap y height in
  {| cur_x := x; cur_y := y; cur_radius := cur_radius dc;
     cur_strength := strength; cur_angle := angle; cur_rotSpeed := cur_rotSpeed dc |}.

(** [cols = ceil(width / cellSize) + 1] of [setup] and
    [windowResized] (and [rows], from the height). *)
Definition gridSize (extent : R) : R := ceil (extent / cellSize) + 1.

(** "Get flow field angle" in [updateAndDrawParticles]: the index
    [col + row * cols] at which the particle at [(x, y)] reads
    [flowField]. *)
Definition fieldIndex (cols rows : R) (x y : R) : R :=
  let col := floor (x / cellSize) in
  let row := floor (y / cellSize) in
  let col := constrain col 0 (cols - 1) in
  let row := constrain row 0 (rows - 1) in
  col + row * cols.

(** One colour channel of a row of [drawOceanBackground]: the
    gradient between the surface, mid, deep and abyss colours at
    height [y], shifted by the depth. *)
Definition gradient (surface mid deep abyss : R) (height depthY y : R) : R :=
  let t := y / height in
  let t := constrain (t + depthY * 0.5) 0 1 in
  if Rlt_dec t 0.33 then
    let lt := t / 0.33 in lerp surface mid lt
  else if Rlt_dec t 0.66 then
    let lt := (t - 0.33) / 0.33 in lerp mid deep lt
  else
    let lt := (t - 0.66) / 0.34 in lerp deep abyss lt.

End Ocean.

(** ** The clock sketch *)

Module Clock.

(** "Utility: shortest angular difference" *)
Definition angleDifference (a b : R) : R :=
  let diff := fmod (b - a + PI) TWO_PI - PI in
  if Rlt_dec diff (- PI) then diff + TWO_PI else diff.

(** The angle the hand is eased toward in [draw]:
    [HALF_PI + nerve.edgeScore * PI]. *)
Definition targetAngle (edgeScore : R) : R := HALF_PI + edgeScore * PI.

(** "Proximity of hand to midnight" in [drawMidnightMarker]. *)
Definition proximity (handAngle : R) : R :=
  let markerAngle := - HALF_PI in
  let proximity := 1 - Rabs (angleDifference handAngle markerAngle) / PI in
  let proximity := constrain proximity 0 1 in
  proximity ^ 2.

(** The particle step of [updateParticles]. *)
Definition advance (p : Particles.Particle) : Particles.Particle :=
  let x := Particles.p_x p + Particles.p_vx p in
  let y := Particles.p_y p + Particles.p_vy p in
  let life := Particles.p_life p - Particles.p_decay p in
  Particles.mkParticle x y (Particles.p_vx p) (Particles.p_vy p) life
    (Particles.p_decay p) (Particles.p_size p) (Particles.p_color p).

(** [updateParticles], on the [particles] array. *)
Definition updateParticles (particles : list Particles.Particle) : list Particles.Particle :=
  Particles.ageParticles advance 600 particles.

End Clock.

(** ** The fracture sketch *)

Module Fracture.

Definition easeOutCubic (t : R) : R := 1 - (1 - t) ^ 3.

(** The first three statements of the loop body of [drawFragments]:
    the eased separation of a fragment with release threshold
    [crackDelay] when the global fracture level is [currentFracture]. *)
Definition fractureAmount (currentFracture crackDelay : R) : R :=
  let fractureAmount := Rmax 0 ((currentFracture - crackDelay) / (1 - crackDelay)) in
  let fractureAmount := constrain fractureAmount 0 1 in
  easeOutCubic fractureAmount.

(** The same quantity as [drawFragilityThreads] computes it for the
    two ends of a thread ([fractI], [fractJ]): eased first, clamped
    afterwards. *)
Definition threadFracture (currentFracture crackDelay : R) : R :=
  let fract := Rmax 0 ((currentFracture - crackDelay) / (1 - crackDelay)) in
  constrain (easeOutCubic fract) 0 1.

(** The base position of fragment [i] of [numFragments] in [setup]:
    a point of the golden spiral. *)
Definition fragmentBase (numFragments : R) (i : nat) : R * R * R :=
  let theta := acos (1 - 2 * (INR i + 0.5) / numFragments) in
  let phi := PI * (1 + sqrt 5) * INR i in
  let baseX := sin theta * cos phi in
  let baseY := sin theta * sin phi in
  let baseZ := cos theta in
  (baseX, baseY, baseZ).

(** The domain a fragment is assigned in [setup]:
    [floor(map(atan2(baseY, baseX) + PI, 0, TWO_PI, 0, 5)) % 5]. *)
Definition domainIdx (baseX baseY : R) : R :=
  fmod (Ocean.floor (map (atan2 baseY baseX + PI) 0 TWO_PI 0 5)) 5.

(** The visibility of a crack line in [drawCrackLines]; [None] when
    the line is skipped by [continue]. *)
Definition crackVisibility (currentFracture threshold : R) : option R :=
  if Rlt_dec currentFracture (threshold * 0.5) then None
  else
    let visibility := map currentFracture (threshold * 0.5) threshold 0 1 in
    Some (constrain visibility 0 1).

(** One coordinate of the "Wrap" of [drawAmbientParticles]. *)
Definition wrapAmbient (extent : R) (v : R) : R :=
  let v := if Rlt_dec v (- 50) then extent + 50 else v in
  if Rgt_dec v (extent + 50) then - 50 else v.

(** The particle step of the "Draw and update orb particles" loop of
    [drawFragments]. *)
Definition advance (p : Particles.Particle) : Particles.Particle :=
  let x := Particles.p_x p + Particles.p_vx p in
  let y := Particles.p_y p + Particles.p_vy p in
  let vx := Particles.p_vx p * 0.99 in
  let vy := Particles.p_vy p * 0.99 in
  let life := Particles.p_life p - Particles.p_decay p in
  Particles.mkParticle x y vx vy life
    (Particles.p_decay p) (Particles.p_size p) (Particles.p_color p).

(** That loop and the cap that follows it, on [orbParticles]. *)
Definition updateOrbParticles (orbParticles : list Particles.Particle)
  : list Particles.Particle :=
  Particles.ageParticles advance 500 orbParticles.

End Fracture.

(** ** The pulse sketch *)

Module Pulse.

Import Nerve.

Definition maxHistory : nat := 800.

(** [h.push(v); if (h.length > maxHistory) h.shift();] *)
Definition pushHistory (v : R) (h : list R) : list R :=
  let h := h ++ [v] in
  if (maxHistory <? length h)%nat then tail h else h.

(** [domains.indexOf(d)] *)
Fixpoint indexOf (d : string) (names : list string) : Z :=
  match names with
  | [] => (-1)%Z
  | n :: rest =>
      if String.eqb n d then 0%Z
      else match indexOf d rest with
           | Z.neg _ => (-1)%Z
           | i => (i + 1)%Z
           end
  end.

(** The globals of the sketch that the history depends on. *)
Record Sketch := mkSketch {
  nerve : NerveData;
  history : list R;
  domainHistories : gmap string (list R);
  phase : R;
  beatPhase : R;
  lastBeat : R;
  beatInterval : R
}.

(** One turn of the "Pre-fill history" loop of [setup()]. *)
Definition prefill (names : list string) (b : list R * gmap string (list R))
  : list R * gmap string (list R) :=
  (b.1 ++ [0.1], foldl (fun m d => alter (fun h => h ++ [0.01]) d m) b.2 names).

(** [setup()]: an empty history per domain, then [maxHistory] turns of
    the pre-fill loop. *)
Definition setup : Sketch :=
  let names := getDomainNames newNerveData in
  let empty : gmap string (list R) := foldl (fun m d => <[d := []]> m) ∅ names in
  let b := Nat.iter maxHistory (prefill names) ([], empty) in
  {| nerve := newNerveData;
     history := b.1;
     domainHistories := b.2;
     phase := 0;
     beatPhase := 0;
     lastBeat := 0;
     beatInterval := 2000 |}.

Section Waveform.

(** p5's one-argument [noise(x)]. *)
Variable noise : R -> R.

(** [generateHeartbeat(t, intensity)]; [phase] is the global it reads. *)
Definition generateHeartbeat (phase : R) (t intensity : R) : R :=
  let t := fmod t 1 in
  let val := 0 in
  let val := val + 0.15 * exp (- ((t - 0.1) * 20) ^ 2) in
  let val := val - 0.2 * exp (- ((t - 0.25) * 30) ^ 2) in
  let val := val + 1.0 * exp (- ((t - 0.3) * 25) ^ 2) in
  let val := val - 0.3 * exp (- ((t - 0.35) * 30) ^ 2) in
  let val := val + 0.25 * exp (- ((t - 0.55) * 12) ^ 2) in
  let val := val + (noise (t * 50 + phase * 10) - 0.5) * intensity * 0.3 in
  val.

(** The value of [val] before "Add noise proportional to intensity":
    the five Gaussian bumps at the reduced phase [t % 1]. *)
Definition heartbeatBumps (t : R) : R :=
  let t := fmod t 1 in
  let val := 0 in
  let val := val + 0.15 * exp (- ((t - 0.1) * 20) ^ 2) in
  let val := val - 0.2 * exp (- ((t - 0.25) * 30) ^ 2) in
  let val := val + 1.0 * exp (- ((t - 0.3) * 25) ^ 2) in
  let val := val - 0.3 * exp (- ((t - 0.35) * 30) ^ 2) in
  let val := val + 0.25 * exp (- ((t - 0.55) * 12) ^ 2) in
  val.

(** The part of [draw()] up to and including the pushes to the
    histories, at time [now = millis()].  The pending fetch that
    [nerve.update()] may start is not part of the sketch state. *)
Definition draw (now : R) (s : Sketch) : Sketch :=
  let nerve := (update now (nerve s)).1 in
  let phase := phase s + 0.01 in
  let beatInterval := map (edgeScore nerve) 0 1 3000 400 in
  let timeSinceBeat := now - lastBeat s in
  let '(lastBeat, beatPhase) :=
    if Rgt_dec timeSinceBeat beatInterval then (now, 1.0) else (lastBeat s, beatPhase s) in
  let beatPhase := beatPhase * 0.92 in
  let beatValue := generateHeartbeat phase (timeSinceBeat / beatInterval) (edgeScore nerve) in
  let history := pushHistory (edgeScore nerve + beatValue * edgeScore nerve * 0.5) (history s) in
  let domains := getDomainNames nerve in
  let domainHistories :=
    foldl (fun dh d =>
             let score := default 0 (domainScore nerve d) in
             let domainBeat := beatValue * score * 0.4 in
             let noise_val := noise (phase * 2 + IZR (indexOf d domains) * 100) * 0.05 in
             alter (pushHistory (score + domainBeat + noise_val)) d dh)
          (domainHistories s) domains in
  {| nerve := nerve;
     history := history;
     domainHistories := domainHistories;
     phase := phase;
     beatPhase := beatPhase;
     lastBeat := lastBeat;
     beatInterval := beatInterval |}.

(** No buffer holds more than [maxHistory] samples. *)
Definition withinCapacity (s : Sketch) : Prop :=
  (length (history s) <= maxHistory)%nat
  /\ forall d b, domainHistories s !! d = Some b -> (length b <= maxHistory)%nat.

(** All six buffers are full, and there is no seventh. *)
Definition buffersFull (s : Sketch) : Prop :=
  getDomainNames (nerve s) = domainNames
  /\ length (history s) = maxHistory
  /\ (forall d, d ∈ domainNames ->
       exists b, domainHistories s !! d = Some b /\ length b = maxHistory)
  /\ (forall d, d ∉ domainNames -> domainHistories s !! d = None).

(** What happens to the sketch: a frame is drawn, or an input or a
    settled fetch changes the data module between two frames. *)
Inductive SketchEvent : Type :=
| Frame (now : R)
| Input (e : Event).

Definition sketchStep (ev : SketchEvent) (s : Sketch) : Sketch :=
  match ev with
  | Frame now => draw now s
  | Input e =>
      {| nerve := step e (nerve s);
         history := history s;
         domainHistories := domainHistories s;
         phase := phase s;
         beatPhase := beatPhase s;
         lastBeat := lastBeat s;
         beatInterval := beatInterval s |}
  end.

Definition sketchRun (evs : list SketchEvent) (s : Sketch) : Sketch :=
  foldl (fun s ev => sketchStep ev s) s evs.

(** [beatValue] in the frame drawn at time [now]: the heartbeat at
    [timeSinceBeat / beatInterval], after [nerve.update()] and
    [phase += 0.01]. *)
Definition beatValueAt (now : R) (s : Sketch) : R :=
  let nerve := (update now (nerve s)).1 in
  let phase := phase s + 0.01 in
  let beatInterval := map (edgeScore nerve) 0 1 3000 400 in
  let timeSinceBeat := now - lastBeat s in
  generateHeartbeat phase (timeSinceBeat / beatInterval) (edgeScore nerve).

(** The argument of [history.push(...)] in that frame. *)
Definition mainSample (now : R) (s : Sketch) : R :=
  let nerve := (update now (nerve s)).1 in
  let beatValue := beatValueAt now s in
  edgeScore nerve + beatValue * edgeScore nerve * 0.5.

(** The argument of [domainHistories[d].push(...)] in that frame. *)
Definition domainSample (now : R) (s : Sketch) (d : string) : R :=
  let nerve := (update now (nerve s)).1 in
  let phase := phase s + 0.01 in
  let beatValue := beatValueAt now s in
  let domains := getDomainNames nerve in
  let score := default 0 (domainScore nerve d) in
  let domainBeat := beatValue * score * 0.4 in
  let noise_val := noise (phase * 2 + IZR (indexOf d domains) * 100) * 0.05 in
  score + domainBeat + noise_val.

(** The values consecutive frames at the times [nows] push onto
    [history], and onto the history of domain [d], in the order of
    the frames. *)
Fixpoint mainSamples (nows : list R) (s : Sketch) : list R :=
  match nows with
  | [] => []
  | now :: rest => mainSample now s :: mainSamples rest (draw now s)
  end.

Fixpoint domainSamples (d : string) (nows : list R) (s : Sketch) : list R :=
  match nows with
  | [] => []
  | now :: rest => domainSample now s d :: domainSamples d rest (draw now s)
  end.

End Waveform.

(** The beat period of [draw]: [map(nerve.edgeScore, 0, 1, 3000, 400)],
    and the figure shown by [drawScoreDisplay]:
    [floor(60000 / beatInterval)]. *)
Definition beatIntervalOf (edgeScore : R) : R := map edgeScore 0 1 3000 400.
Definition bpm (beatInterval : R) : R := Ocean.floor (60000 / beatInterval).

(** The samples [drawMainPulse] plots, in plotting order:
    [history[startIdx + i] || 0] for [i] below
    [visibleHistory = min(history.length, floor(width / 1.5))], with
    [startIdx = history.length - visibleHistory].  A width that is not
    negative is assumed, so that the count is a natural number. *)
Definition visibleHistory (width : R) (history : list R) : nat :=
  Nat.min (length history) (Z.to_nat (Int_part (width / 1.5))).

Definition plottedSamples (width : R) (history : list R) : list R :=
  let visibleHistory := visibleHistory width history in
  let startIdx := (length history - visibleHistory)%nat in
  (fun i => default 0 (history !! (startIdx + i)%nat)) <$> seq 0 visibleHistory.

(** The legend label of [drawDomainLegend]:
    [d.length > 10 ? d.substring(0, 8) + '..' : d]. *)
Definition legendLabel (d : string) : string :=
  if (10 <? String.length d)%nat then String.append (String.substring 0 8 d) ".." else d.

(** The particle step of [drawAfterglowParticles], and the function
    on [afterglowParticles]. *)
Definition advance (p : Particles.Particle) : Particles.Particle :=
  let x := Particles.p_x p + Particles.p_vx p in
  let y := Particles.p_y p + Particles.p_vy p in
  let vy := Particles.p_vy p * 0.98 in
  let life := Particles.p_life p - Particles.p_decay p in
  Particles.mkParticle x y (Particles.p_vx p) vy life
    (Particles.p_decay p) (Particles.p_size p) (Particles.p_color p).

Definition drawAfterglowParticles (afterglowParticles : list Particles.Particle)
  : list Particles.Particle :=
  Particles.ageParticles advance 300 afterglowParticles.

End Pulse.

(** * Properties *)

(** ** Facts about the integer part and the remainder *)

Section Remainder.

Lemma div_nonneg (x y : R) : 0 <= x -> 0 < y -> 0 <= x / y.
Proof.
  intros Hx Hy. unfold Rdiv.
  assert (0 < / y) by (apply Rinv_0_lt_compat; lra). nra.
Qed.

Lemma Int_part_bounds (r : R) : IZR (Int_part r) <= r < IZR (Int_part r) + 1.
Proof. destruct (base_Int_part r) as [Hle Hgt]. lra. Qed.

Lemma Int_part_unique (r : R) (k : Z) :
  IZR k <= r < IZR k + 1 -> Int_part r = k.
Proof.
  intros [Hlo Hhi].
  destruct (Int_part_bounds r) as [Ilo Ihi].
  assert (Hlt1 : (Int_part r < k + 1)%Z).
  { apply lt_IZR. rewrite plus_IZR. lra. }
  assert (Hlt2 : (k < Int_part r + 1)%Z).
  { apply lt_IZR. rewrite plus_IZR. lra. }
  lia.
Qed.

Lemma Int_part_IZR (k : Z) : Int_part (IZR k) = k.
Proof. apply Int_part_unique. lra. Qed.

Lemma Int_part_succ (r : R) : Int_part (r + 1) = (Int_part r + 1)%Z.
Proof.
  apply Int_part_unique. rewrite plus_IZR.
  destruct (Int_part_bounds r). lra.
Qed.

Lemma trunc_0 : trunc 0 = 0%Z.
Proof.
  unfold trunc. destruct (Rle_dec 0 0) as [_|Hn]; [|lra].
  apply (Int_part_IZR 0).
Qed.

(** The remainder differs from the dividend by a whole number of
    divisors. *)
Lemma fmod_congruent (x y : R) : exists k : Z, fmod x y = x - y * IZR k.
Proof. exists (trunc (x / y)). reflexivity. Qed.

(** Non-negative dividend: the remainder lies in [[0, y)]. *)
Lemma fmod_nonneg (x y : R) : 0 < y -> 0 <= x -> 0 <= fmod x y < y.
Proof.
  intros Hy Hx. unfold fmod, trunc.
  assert (Hq : 0 <= x / y) by (apply div_nonneg; lra).
  destruct (Rle_dec 0 (x / y)) as [_|Hn]; [|lra].
  destruct (Int_part_bounds (x / y)) as [Hlo Hhi].
  assert (Hx' : x = y * (x / y)) by (field; lra).
  split.
  - assert (y * IZR (Int_part (x / y)) <= y * (x / y)) by (apply Rmult_le_compat_l; lra).
    lra.
  - assert (y * (x / y) < y * (IZR (Int_part (x / y)) + 1)) by (apply Rmult_lt_compat_l; lra).
    lra.
Qed.

(** Negative dividend: the remainder lies in [(-y, 0]]. *)
Lemma fmod_neg (x y : R) : 0 < y -> x < 0 -> - y < fmod x y <= 0.
Proof.
  intros Hy Hx. unfold fmod, trunc.
  assert (Hq : x / y < 0).
  { unfold Rdiv. assert (0 < / y) by (apply Rinv_0_lt_compat; lra). nra. }
  destruct (Rle_dec 0 (x / y)) as [Hn|_]; [lra|].
  destruct (Int_part_bounds (- (x / y))) as [Hlo Hhi].
  rewrite opp_IZR.
  assert (Hx' : x = y * (x / y)) by (field; lra).
  split.
  - assert (y * (- (x / y)) < y * (IZR (Int_part (- (x / y))) + 1))
      by (apply Rmult_lt_compat_l; lra).
    lra.
  - assert (y * IZR (Int_part (- (x / y))) <= y * (- (x / y)))
      by (apply Rmult_le_compat_l; lra).
    lra.
Qed.

(** Adding one divisor to a non-negative dividend does not change the
    remainder. *)
Lemma fmod_add_divisor (x y : R) : 0 < y -> 0 <= x -> fmod (x + y) y = fmod x y.
Proof.
  intros Hy Hx. unfold fmod, trunc.
  assert (Hq : 0 <= x / y) by (apply div_nonneg; lra).
  assert (Hd : (x + y) / y = x / y + 1) by (field; lra).
  rewrite Hd.
  destruct (Rle_dec 0 (x / y + 1)) as [_|Hn]; [|lra].
  destruct (Rle_dec 0 (x / y)) as [_|Hn]; [|lra].
  rewrite Int_part_succ, plus_IZR. lra.
Qed.

Lemma fmod_0_l (y : R) : y <> 0 -> fmod 0 y = 0.
Proof.
  intros Hy. unfold fmod.
  replace (0 / y) with 0 by (field; exact Hy).
  rewrite trunc_0. lra.
Qed.

End Remainder.

(** ** The clock's [angleDifference] *)

Section AngleDifference.

Import Clock.

Lemma TWO_PI_pos : 0 < TWO_PI.
Proof. unfold TWO_PI. pose proof PI_RGT_0. lra. Qed.

Lemma angleDifference_congruent (a b : R) :
  exists k : Z, angleDifference a b = b - a + TWO_PI * IZR k.
Proof.
  unfold angleDifference.
  destruct (fmod_congruent (b - a + PI) TWO_PI) as [k Hk].
  cbv zeta. rewrite Hk.
  destruct (Rlt_dec _ _).
  - exists (1 - k)%Z. rewrite minus_IZR. lra.
  - exists (- k)%Z. rewrite opp_IZR. lra.
Qed.

Lemma angleDifference_range (a b : R) :
  - PI <= angleDifference a b < PI.
Proof.
  unfold angleDifference. cbv zeta.
  pose proof TWO_PI_pos as Hpos.
  assert (H2 : TWO_PI = 2 * PI) by reflexivity.
  destruct (Rle_lt_dec 0 (b - a + PI)) as [Hx|Hx].
  - destruct (fmod_nonneg (b - a + PI) TWO_PI Hpos Hx) as [Hlo Hhi].
    destruct (Rlt_dec _ _); lra.
  - destruct (fmod_neg (b - a + PI) TWO_PI Hpos Hx) as [Hlo Hhi].
    destruct (Rlt_dec _ _); lra.
Qed.

(** C10, as the code has it: for all angles [a] and [b],
    [angleDifference(a, b)] lies in the half-open interval [-PI, PI)
    (closed at [-PI], open at [PI]) and is congruent to [b - a] modulo
    [2 PI], also when [b - a + PI] is negative and the remainder
    operator yields a negative intermediate. *)
Theorem angleDifference_shortest (a b : R) :
  - PI <= angleDifference a b < PI
  /\ (exists k : Z, angleDifference a b = b - a + TWO_PI * IZR k)
  /\ Rabs (angleDifference a b) <= PI.
Proof.
  pose proof (angleDifference_range a b) as Hr.
  split; [exact Hr|]. split; [apply angleDifference_congruent|].
  apply Rabs_le. lra.
Qed.

Lemma angleDifference_PI_0 : angleDifference PI 0 = - PI.
Proof.
  unfold angleDifference. cbv zeta.
  replace (0 - PI + PI) with 0 by lra.
  rewrite fmod_0_l by (pose proof TWO_PI_pos; lra).
  destruct (Rlt_dec _ _); lra.
Qed.

(** C10, as stated, fails at [a = PI], [b = 0]: the result is [-PI],
    which is outside [(-PI, PI]]. *)
Lemma angleDifference_not_in_left_open_interval :
  ~ (- PI < angleDifference PI 0 <= PI).
Proof. rewrite angleDifference_PI_0. lra. Qed.

End AngleDifference.

(** ** The fracture sketch: staggered release *)

Section FractureAmount.

Import Fracture.

Lemma easeOutCubic_mono (s t : R) : s <= t -> easeOutCubic s <= easeOutCubic t.
Proof.
  intros Hst. unfold easeOutCubic.
  set (a := 1 - s). set (b := 1 - t).
  assert (Hd : 0 <= a - b) by (unfold a, b; lra).
  assert (Hq : 0 <= (2 * a + b) ^ 2 + 3 * b ^ 2).
  { pose proof (pow2_ge_0 (2 * a + b)). pose proof (pow2_ge_0 b). lra. }
  assert (Hp : 4 * (a ^ 3 - b ^ 3) = (a - b) * ((2 * a + b) ^ 2 + 3 * b ^ 2)) by ring.
  assert (0 <= (a - b) * ((2 * a + b) ^ 2 + 3 * b ^ 2)) by (apply Rmult_le_pos; assumption).
  lra.
Qed.

Lemma constrain_mono (x y lo hi : R) : x <= y -> constrain x lo hi <= constrain y lo hi.
Proof.
  intros Hxy. unfold constrain.
  apply Rle_max_compat_r. apply Rle_min_compat_r. exact Hxy.
Qed.

Lemma ratio_mono (c1 c2 d : R) :
  d < 1 -> c1 <= c2 -> (c1 - d) / (1 - d) <= (c2 - d) / (1 - d).
Proof.
  intros Hd Hc. unfold Rdiv.
  apply Rmult_le_compat_r; [|lra].
  left. apply Rinv_0_lt_compat. lra.
Qed.

(** C7: for a fixed release threshold in (0,1), the eased separation
    of a fragment is non-decreasing in the global fracture level and is
    0 as long as the level has not passed the threshold. *)
Theorem fractureAmount_monotone (crackDelay : R) :
  0 < crackDelay < 1 ->
  (forall c1 c2 : R, c1 <= c2 ->
      fractureAmount c1 crackDelay <= fractureAmount c2 crackDelay)
  /\ (forall c : R, c <= crackDelay -> fractureAmount c crackDelay = 0).
Proof.
  intros [Hlo Hhi]. split.
  - intros c1 c2 Hc. unfold fractureAmount. cbv zeta.
    apply easeOutCubic_mono, constrain_mono.
    apply Rle_max_compat_l, ratio_mono; lra.
  - intros c Hc. unfold fractureAmount. cbv zeta.
    assert (Hq : (c - crackDelay) / (1 - crackDelay) <= 0).
    { unfold Rdiv. assert (0 < / (1 - crackDelay)) by (apply Rinv_0_lt_compat; lra). nra. }
    rewrite Rmax_left by exact Hq.
    unfold constrain. rewrite Rmin_left by lra. rewrite Rmax_left by lra.
    unfold easeOutCubic. ring.
Qed.

Lemma fractureAmount_monotone_witness :
  0 < 0.5 < 1
  /\ (forall c1 c2 : R, c1 <= c2 -> fractureAmount c1 0.5 <= fractureAmount c2 0.5)
  /\ (forall c : R, c <= 0.5 -> fractureAmount c 0.5 = 0).
Proof.
  split; [lra|]. apply (fractureAmount_monotone 0.5). lra.
Defined.

End FractureAmount.

(** ** The pulse sketch: the heartbeat waveform *)

Section Heartbeat.

Import Pulse.

Variable noise : R -> R.

Lemma generateHeartbeat_split (phase t intensity : R) :
  generateHeartbeat noise phase t intensity
  = heartbeatBumps t + (noise (fmod t 1 * 50 + phase * 10) - 0.5) * intensity * 0.3.
Proof. reflexivity. Qed.

Lemma heartbeatBumps_periodic (t : R) : 0 <= t -> heartbeatBumps (t + 1) = heartbeatBumps t.
Proof.
  intros Ht. unfold heartbeatBumps.
  rewrite (fmod_add_divisor t 1) by lra. reflexivity.
Qed.

(** C8: the waveform is the sum of a Gaussian-bump part that depends
    on [t] alone and a noise term; for [t >= 0] the bump part has
    period 1, and so has the whole waveform while [phase] stays fixed;
    with the noise term switched off (intensity 0) the output is the
    bump part, whatever the noise field and [phase] are. *)
Theorem generateHeartbeat_periodic (t : R) :
  0 <= t ->
  heartbeatBumps (t + 1) = heartbeatBumps t
  /\ (forall phase intensity : R,
        generateHeartbeat noise phase t intensity
        = heartbeatBumps t + (noise (fmod t 1 * 50 + phase * 10) - 0.5) * intensity * 0.3)
  /\ (forall phase intensity : R,
        generateHeartbeat noise phase (t + 1) intensity
        = generateHeartbeat noise phase t intensity)
  /\ (forall phase : R, generateHeartbeat noise phase t 0 = heartbeatBumps t).
Proof.
  intros Ht. split; [apply heartbeatBumps_periodic; exact Ht|].
  split; [intros; apply generateHeartbeat_split|].
  split.
  - intros phase intensity. rewrite !generateHeartbeat_split.
    rewrite heartbeatBumps_periodic by exact Ht.
    rewrite (fmod_add_divisor t 1) by lra. reflexivity.
  - intros phase. rewrite generateHeartbeat_split. ring.
Qed.

End Heartbeat.

Lemma generateHeartbeat_periodic_witness :
  0 <= 0.25
  /\ Pulse.heartbeatBumps (0.25 + 1) = Pulse.heartbeatBumps 0.25
  /\ (forall phase intensity : R,
        Pulse.generateHeartbeat (fun x => x) phase (0.25 + 1) intensity
        = Pulse.generateHeartbeat (fun x => x) phase 0.25 intensity).
Proof.
  assert (H : 0 <= 0.25) by lra.
  split; [exact H|].
  destruct (generateHeartbeat_periodic (fun x => x) 0.25 H) as (H1 & _ & H3 & _).
  split; [exact H1|exact H3].
Defined.

(** ** The ocean sketch: blending a cell's angle *)

Section FlowFieldBlend.

Import Ocean.

Lemma atan2_0_0 : atan2 0 0 = 0.
Proof.
  unfold atan2.
  destruct (Rlt_dec 0 0) as [H|_]; [lra|].
  destruct (Rlt_dec 0 0) as [H|_]; [lra|]. reflexivity.
Qed.

(** Each blend of [updateFlowField] is the plain [lerp] of the two
    angle values. *)
Lemma currentInfluence_is_lerp (px py angle : R) (dc : DomainCurrent) :
  sqrt ((px - cur_x dc) * (px - cur_x dc) + (py - cur_y dc) * (py - cur_y dc)) < cur_radius dc ->
  currentInfluence px py angle dc
  = angle + (1 - sqrt ((px - cur_x dc) * (px - cur_x dc) + (py - cur_y dc) * (py - cur_y dc))
                 / cur_radius dc) * cur_strength dc * 0.5
            * (atan2 (py - cur_y dc) (px - cur_x dc) + HALF_PI + cur_angle dc - angle).
Proof.
  intros Hd. unfold currentInfluence. cbv zeta.
  destruct (Rlt_dec _ _) as [_|Hn]; [|contradiction].
  unfold lerp. ring.
Qed.

Lemma not_onShortestArc_example : ~ onShortestArc (2 * PI) (PI / 4) (13 / 10 * PI).
Proof.
  intros (d & s & k & j & [Hd1 Hd2] & Hb & [Hs1 Hs2] & Hr).
  pose proof PI_RGT_0 as Hpi. unfold TWO_PI in *.
  (* the difference is PI/4: j = -1 *)
  assert (Hj : j = (-1)%Z).
  { assert (H1 : IZR j < 0).
    { apply Rmult_lt_reg_l with (r := PI); [exact Hpi|]. nra. }
    assert (H2 : -2 < IZR j).
    { apply Rmult_lt_reg_l with (r := PI); [exact Hpi|]. nra. }
    apply lt_IZR in H1. apply lt_IZR in H2. lia. }
  subst j.
  assert (Hdv : d = PI / 4) by lra.
  subst d.
  (* no whole turn brings 13/10 PI onto the arc *)
  assert (H1 : IZR k < 0).
  { apply Rmult_lt_reg_l with (r := PI); [exact Hpi|]. nra. }
  assert (H2 : -1 < IZR k).
  { apply Rmult_lt_reg_l with (r := PI); [exact Hpi|]. nra. }
  apply lt_IZR in H1. apply lt_IZR in H2. lia.
Qed.

(** C9 fails on the code: the blend is a raw scalar [lerp].  With
    the edge score at 0.1, a cell whose base angle is [2 PI] (the
    direction 0) is pulled by 0.4 toward a current whose direction is
    [PI / 4]; the stored angle is [13/10 PI], which is not on the
    shorter arc between the two directions: the blend went the long
    way around. *)
Theorem updateFlowField_blend_long_way_around :
  let dc := mkDomainCurrent 0 0 100 0.8 (- (PI / 4)) 0 in
  let noise := fun _ _ _ : R => 5 / 11 in
  let base := noise 0 0 0 * TWO_PI * (2 + 0.1 * 2) in
  let currentAngle := atan2 0 0 + HALF_PI + cur_angle dc in
  base = 2 * PI
  /\ currentAngle = PI / 4
  /\ cellAngle noise 0.1 0 1000 0 [dc] 0 0 = lerp base currentAngle 0.4
  /\ cellAngle noise 0.1 0 1000 0 [dc] 0 0 = 13 / 10 * PI
  /\ ~ onShortestArc base currentAngle (cellAngle noise 0.1 0 1000 0 [dc] 0 0).
Proof.
  cbv zeta.
  assert (Hcell : cellAngle (fun _ _ _ : R => 5 / 11) 0.1 0 1000 0
                    [mkDomainCurrent 0 0 100 0.8 (- (PI / 4)) 0] 0 0 = 13 / 10 * PI).
  { unfold cellAngle, mouseInfluenced, currentInfluence.
    cbn [foldl cur_x cur_y cur_radius cur_strength cur_angle INR].
    replace (0 * cellSize - 0) with 0 by (unfold cellSize; ring).
    replace (0 * 0 + 0 * 0) with 0 by ring.
    rewrite sqrt_0.
    destruct (Rlt_dec 0 100) as [_|Hn]; [|lra].
    replace (1000 - 0 * cellSize) with 1000 by (unfold cellSize; ring).
    replace (1000 * 1000 + (0 - 0 * cellSize) * (0 - 0 * cellSize)) with (1000 * 1000)
      by (unfold cellSize; ring).
    rewrite sqrt_square by lra.
    destruct (Rlt_dec 1000 150) as [Hn|_]; [lra|].
    rewrite atan2_0_0. unfold lerp, TWO_PI, HALF_PI. lra. }
  rewrite atan2_0_0. rewrite Hcell. cbn [cur_angle].
  unfold lerp, TWO_PI, HALF_PI.
  split; [lra|]. split; [lra|]. split; [lra|]. split; [reflexivity|].
  replace (5 / 11 * (2 * PI) * (2 + 0.1 * 2)) with (2 * PI) by lra.
  replace (0 + PI / 2 + - (PI / 4)) with (PI / 4) by lra.
  apply not_onShortestArc_example.
Qed.

End FlowFieldBlend.

(** ** The data module: smoothing *)

Section Smoothing.

Import Nerve.

Lemma fmap_cons' {A B} (f : A -> B) (x : A) (l : list A) :
  f <$> (x :: l) = f x :: (f <$> l).
Proof. reflexivity. Qed.

Lemma lerp_same (x k : R) : lerp x x k = x.
Proof. unfold lerp. ring. Qed.

(** [n] steps of [c += (t - c) * k] in closed form. *)
Lemma lerp_closed_form_step (t c0 k : R) (n : nat) :
  lerp (t - (t - c0) * (1 - k) ^ n) t k = t - (t - c0) * (1 - k) ^ S n.
Proof. unfold lerp. simpl. ring. Qed.

Lemma lookupOwn_elem {A} (d : string) (ds : list (string * A)) (v : A) :
  lookupOwn d ds = Some v -> (d, v) ∈ ds.
Proof.
  induction ds as [|[d' v'] ds IH]; simpl; [discriminate|].
  destruct (String.eqb_spec d d') as [->|Hne].
  - intros [= ->]. apply list_elem_of_here.
  - intros H. apply list_elem_of_further, IH, H.
Qed.

Lemma lookupOwn_NoDup {A} (d : string) (ds : list (string * A)) (v : A) :
  NoDup ds.*1 -> (d, v) ∈ ds -> lookupOwn d ds = Some v.
Proof.
  induction ds as [|[d' v'] ds IH]; simpl; intros Hnd Hin.
  - inversion Hin.
  - apply NoDup_cons in Hnd as [Hnotin Hnd].
    apply elem_of_cons in Hin as [[= -> ->]|Hin].
    + rewrite String.eqb_refl. reflexivity.
    + destruct (String.eqb_spec d d') as [->|Hne].
      * exfalso. apply Hnotin.
        apply (list_elem_of_fmap_2 fst) in Hin. exact Hin.
      * apply IH; assumption.
Qed.

Section Fold.

Variable t : gmap string Loc.

Lemma smoothDomain_length (h : list R) (e : string * Loc) :
  length (smoothDomain t h e) = length h.
Proof.
  unfold smoothDomain.
  destruct (t !! e.1) as [l'|]; [|reflexivity].
  destruct (h !! e.2); [|reflexivity].
  destruct (h !! l'); [|reflexivity].
  apply length_insert.
Qed.

Lemma smoothDomain_lookup_ne (h : list R) (e : string * Loc) (m : nat) :
  m <> e.2 -> smoothDomain t h e !! m = h !! m.
Proof.
  intros Hne. unfold smoothDomain.
  destruct (t !! e.1) as [l'|]; [|reflexivity].
  destruct (h !! e.2); [|reflexivity].
  destruct (h !! l'); [|reflexivity].
  apply list_lookup_insert_ne. congruence.
Qed.

Lemma smoothDomain_lookup_eq (h : list R) (e : string * Loc) :
  smoothDomain t h e !! e.2 = smoothed t h e.
Proof.
  unfold smoothDomain, smoothed.
  destruct (t !! e.1) as [l'|]; [|reflexivity].
  destruct (h !! e.2) as [x|] eqn:Hx; [|rewrite Hx; reflexivity].
  destruct (h !! l') as [y|]; [|exact Hx].
  apply list_lookup_insert_eq. eapply lookup_lt_Some, Hx.
Qed.

Lemma foldl_smooth_length (ds : list (string * Loc)) (h : list R) :
  length (foldl (smoothDomain t) h ds) = length h.
Proof.
  revert h. induction ds as [|e ds IH]; intros h; simpl; [reflexivity|].
  rewrite IH. apply smoothDomain_length.
Qed.

Lemma foldl_smooth_notin (ds : list (string * Loc)) (h : list R) (m : nat) :
  m ∉ ds.*2 -> foldl (smoothDomain t) h ds !! m = h !! m.
Proof.
  revert h. induction ds as [|e ds IH]; intros h Hm; simpl; [reflexivity|].
  rewrite fmap_cons' in Hm. apply not_elem_of_cons in Hm as [Hne Hm].
  rewrite IH by exact Hm. apply smoothDomain_lookup_ne. exact Hne.
Qed.

Lemma unshared_tail (e : string * Loc) (ds : list (string * Loc)) :
  unshared t (e :: ds) -> unshared t ds.
Proof.
  intros Hu d l l' Hin Ht.
  destruct (Hu d l l' (list_elem_of_further _ _ _ Hin) Ht) as [->|Hn]; [left; reflexivity|].
  right. rewrite fmap_cons' in Hn. apply not_elem_of_cons in Hn as [_ Hn]. exact Hn.
Qed.

Lemma foldl_smooth_in (ds : list (string * Loc)) (h : list R) (d : string) (l : Loc) :
  NoDup ds.*2 -> unshared t ds -> (d, l) ∈ ds ->
  foldl (smoothDomain t) h ds !! l = smoothed t h (d, l).
Proof.
  revert h. induction ds as [|[d0 l0] ds IH]; intros h Hnd Hu Hin.
  - inversion Hin.
  - rewrite fmap_cons' in Hnd. apply NoDup_cons in Hnd as [Hl0 Hnd]. simpl in Hl0.
    simpl foldl.
    apply elem_of_cons in Hin as [[= -> ->]|Hin].
    + rewrite foldl_smooth_notin by exact Hl0.
      apply (smoothDomain_lookup_eq h (d0, l0)).
    + rewrite (IH _ Hnd (unshared_tail _ _ Hu) Hin).
      assert (Hne : l <> l0).
      { intros ->. apply Hl0. apply (list_elem_of_fmap_2 snd) in Hin. exact Hin. }
      unfold smoothed. cbn [fst snd].
      destruct (t !! d) as [l'|] eqn:Ht.
      * assert (Hne' : l' <> l0).
        { destruct (Hu d l l' (list_elem_of_further _ _ _ Hin) Ht) as [->|Hn]; [exact Hne|].
          intros ->. apply Hn. rewrite fmap_cons'. apply list_elem_of_here. }
        rewrite (smoothDomain_lookup_ne h (d0, l0) l Hne).
        rewrite (smoothDomain_lookup_ne h (d0, l0) l' Hne'). reflexivity.
      * apply (smoothDomain_lookup_ne h (d0, l0) l Hne).
Qed.

Lemma unshared_Permutation (ds ds' : list (string * Loc)) :
  ds ≡ₚ ds' -> unshared t ds -> unshared t ds'.
Proof.
  intros Hp Hu d l l' Hin Ht.
  rewrite <- Hp in Hin.
  destruct (Hu d l l' Hin Ht) as [->|Hn]; [left; reflexivity|].
  right. rewrite <- Hp. exact Hn.
Qed.

(** The loop over the domains writes the same store whatever the order
    of its turns. *)
Lemma foldl_smooth_Permutation (ds ds' : list (string * Loc)) (h : list R) :
  ds ≡ₚ ds' -> NoDup ds.*2 -> unshared t ds ->
  foldl (smoothDomain t) h ds' = foldl (smoothDomain t) h ds.
Proof.
  intros Hp Hnd Hu. apply list_eq. intros m.
  destruct (decide (m ∈ ds.*2)) as [Hin|Hnotin].
  - apply list_elem_of_fmap_1 in Hin as ([d l] & -> & Hin). simpl.
    rewrite (foldl_smooth_in ds h d l Hnd Hu Hin).
    apply foldl_smooth_in.
    + rewrite <- Hp. exact Hnd.
    + apply (unshared_Permutation ds); assumption.
    + rewrite <- Hp. exact Hin.
  - rewrite (foldl_smooth_notin ds h m Hnotin).
    apply foldl_smooth_notin. rewrite <- Hp. exact Hnotin.
Qed.

End Fold.

Lemma wf_unshared (s : NerveData) : wf s -> unshared (targetDomains s) (domains s).
Proof.
  intros (_ & _ & Hw) d l l' Hin Ht.
  destruct (Hw d l Hin) as (_ & l'' & Ht' & _ & Hor).
  rewrite Ht in Ht'. injection Ht' as ->. exact Hor.
Qed.

Lemma domainNames_NoDup : NoDup domainNames.
Proof.
  apply (bool_decide_unpack _). reflexivity.
Qed.

Lemma wf_keys_NoDup (s : NerveData) : wf s -> NoDup (domains s).*1.
Proof. intros (Hk & _). rewrite Hk. apply domainNames_NoDup. Qed.

Lemma smoothIn_fields (order : list (string * Loc)) (s : NerveData) :
  edgeScore (smoothIn order s) = lerp (edgeScore s) (targetEdge s) lerpSpeed
  /\ targetEdge (smoothIn order s) = targetEdge s
  /\ domains (smoothIn order s) = domains s
  /\ targetDomains (smoothIn order s) = targetDomains s
  /\ simMode (smoothIn order s) = simMode s
  /\ apiAvailable (smoothIn order s) = apiAvailable s
  /\ regime (smoothIn order s) = regime s
  /\ fragility (smoothIn order s) = fragility s
  /\ heap (smoothIn order s) = foldl (smoothDomain (targetDomains s)) (heap s) order.
Proof. repeat split. Qed.

Lemma update_smoothIn (now : R) (s : NerveData) :
  (update now s).1 = smoothIn (domains s) s
  \/ (update now s).1 = with_lastFetch now (smoothIn (domains s) s).
Proof.
  unfold update. cbv zeta.
  destruct (negb (simMode (smoothIn (domains s) s))); [|left; reflexivity].
  destruct (Rgt_dec _ _); [right|left]; reflexivity.
Qed.

Lemma update_fields (now : R) (s : NerveData) :
  edgeScore (update now s).1 = lerp (edgeScore s) (targetEdge s) lerpSpeed
  /\ targetEdge (update now s).1 = targetEdge s
  /\ domains (update now s).1 = domains s
  /\ targetDomains (update now s).1 = targetDomains s
  /\ simMode (update now s).1 = simMode s
  /\ apiAvailable (update now s).1 = apiAvailable s
  /\ regime (update now s).1 = regime s
  /\ fragility (update now s).1 = fragility s
  /\ heap (update now s).1 = foldl (smoothDomain (targetDomains s)) (heap s) (domains s).
Proof.
  destruct (update_smoothIn now s) as [-> | ->]; repeat split.
Qed.

Lemma wf_update (now : R) (s : NerveData) : wf s -> wf (update now s).1.
Proof.
  intros (Hk & Hnd & Hw).
  destruct (update_fields now s) as (_ & _ & Hd & Ht & _ & _ & _ & _ & Hh).
  unfold wf. rewrite Hd, Ht, Hh, foldl_smooth_length.
  split; [exact Hk|]. split; [exact Hnd|]. exact Hw.
Qed.

(** One call of [update] on a well-formed store: every displayed
    domain score moves by [lerp] toward its target, and the target
    keeps its value. *)
Lemma update_scores (now : R) (s : NerveData) (d : string) (x : R) :
  wf s -> domainScore s d = Some x ->
  exists y, targetScore s d = Some y
            /\ targetScore (update now s).1 d = Some y
            /\ domainScore (update now s).1 d = Some (lerp x y lerpSpeed).
Proof.
  intros Hwf Hx.
  pose proof Hwf as (Hk & Hnd & Hw).
  destruct (update_fields now s) as (_ & _ & Hd & Ht & _ & _ & _ & _ & Hh).
  unfold domainScore in Hx.
  destruct (lookupOwn d (domains s)) as [l|] eqn:Hl; [|discriminate]. simpl in Hx.
  pose proof (lookupOwn_elem _ _ _ Hl) as Hin.
  destruct (Hw d l Hin) as (Hlt & l' & Hl' & Hlt' & Hor).
  destruct (lookup_lt_is_Some_2 (heap s) l' Hlt') as [y Hy].
  exists y.
  assert (Hcur : foldl (smoothDomain (targetDomains s)) (heap s) (domains s) !! l
                 = Some (lerp x y lerpSpeed)).
  { rewrite (foldl_smooth_in _ _ _ d l Hnd (wf_unshared s Hwf) Hin).
    unfold smoothed. simpl. rewrite Hl', Hx, Hy. reflexivity. }
  split; [|split].
  - unfold targetScore. rewrite Hl'. exact Hy.
  - unfold targetScore. rewrite Ht, Hh, Hl'. simpl.
    destruct Hor as [->|Hn].
    + rewrite Hcur. rewrite Hx in Hy. injection Hy as ->.
      rewrite lerp_same. reflexivity.
    + rewrite foldl_smooth_notin by exact Hn. exact Hy.
  - unfold domainScore. rewrite Hd, Hh, Hl. exact Hcur.
Qed.

Lemma wf_domainScore (s : NerveData) (d : string) :
  wf s -> d ∈ domainNames -> is_Some (domainScore s d).
Proof.
  intros Hwf Hd. pose proof Hwf as (Hk & Hnd & Hw).
  rewrite <- Hk in Hd. apply list_elem_of_fmap_1 in Hd as ([d' l] & -> & Hin). simpl.
  unfold domainScore.
  rewrite (lookupOwn_NoDup d' (domains s) l (wf_keys_NoDup s Hwf) Hin). simpl.
  apply lookup_lt_is_Some_2. apply (Hw d' l Hin).
Qed.

Lemma ticks_snoc (nows : list R) (now : R) (s : NerveData) :
  ticks (nows ++ [now]) s = (update now (ticks nows s)).1.
Proof. unfold ticks, run. rewrite fmap_app, foldl_app. reflexivity. Qed.

Lemma wf_ticks (nows : list R) (s : NerveData) : wf s -> wf (ticks nows s).
Proof.
  intros Hwf. induction nows as [|now nows IH] using rev_ind; [exact Hwf|].
  rewrite ticks_snoc. apply wf_update, IH.
Qed.

(** C1: after [N] calls of [update] with nothing in between, the
    displayed edge score is [target - (target - current_0) * (1 - k)^N]
    with [k = lerpSpeed = 0.02]; every displayed domain score follows
    the same formula toward its own target, the targets keep their
    values, and smoothing the domain entries in any other order gives
    the same state. *)
Theorem update_closed_form (nows : list R) (s : NerveData) :
  wf s ->
  lerpSpeed = 0.02
  /\ edgeScore (ticks nows s)
     = targetEdge s - (targetEdge s - edgeScore s) * (1 - lerpSpeed) ^ length nows
  /\ targetEdge (ticks nows s) = targetEdge s
  /\ (forall d, d ∈ domainNames -> is_Some (domainScore s d))
  /\ (forall d x, domainScore s d = Some x ->
        exists y, targetScore s d = Some y
                  /\ targetScore (ticks nows s) d = Some y
                  /\ domainScore (ticks nows s) d
                     = Some (y - (y - x) * (1 - lerpSpeed) ^ length nows))
  /\ (forall order, order ≡ₚ domains (ticks nows s) ->
        smoothIn order (ticks nows s) = smoothIn (domains (ticks nows s)) (ticks nows s)).
Proof.
  intros Hwf. split; [reflexivity|].
  assert (Hedge : edgeScore (ticks nows s)
     = targetEdge s - (targetEdge s - edgeScore s) * (1 - lerpSpeed) ^ length nows
     /\ targetEdge (ticks nows s) = targetEdge s).
  { induction nows as [|now nows IH] using rev_ind.
    - change (ticks [] s) with s. simpl. split; [lra|reflexivity].
    - destruct IH as [IHe IHt]. rewrite ticks_snoc.
      destruct (update_fields now (ticks nows s)) as (He & Ht & _).
      rewrite He, Ht, IHe, IHt, length_app. simpl length.
      replace (length nows + 1)%nat with (S (length nows)) by lia.
      split; [apply lerp_closed_form_step|reflexivity]. }
  destruct Hedge as [He Ht].
  split; [exact He|]. split; [exact Ht|].
  split; [intros d Hd; apply wf_domainScore; assumption|].
  split.
  - clear He Ht. intros d x Hx.
    induction nows as [|now nows IH] using rev_ind.
    + destruct (update_scores 0 s d x Hwf Hx) as (y & Hy & _).
      exists y. split; [exact Hy|]. split; [exact Hy|].
      change (ticks [] s) with s. simpl. rewrite Hx. f_equal. lra.
    + destruct IH as (y & Hy & Hty & Hdy).
      exists y. split; [exact Hy|].
      rewrite ticks_snoc.
      destruct (update_scores now (ticks nows s) d _ (wf_ticks nows s Hwf) Hdy)
        as (y' & Hy' & Hty' & Hdy').
      rewrite Hty in Hy'. injection Hy' as <-.
      split; [exact Hty'|].
      rewrite Hdy', length_app. simpl length.
      replace (length nows + 1)%nat with (S (length nows)) by lia.
      f_equal. apply lerp_closed_form_step.
  - intros order Hp.
    pose proof (wf_ticks nows s Hwf) as (Hk' & Hnd' & Hw').
    unfold smoothIn. cbv zeta. f_equal. simpl.
    apply foldl_smooth_Permutation.
    + symmetry. exact Hp.
    + exact Hnd'.
    + apply wf_unshared. apply wf_ticks, Hwf.
Qed.

End Smoothing.

(** ** The data module: the store invariant *)

Section StoreBasics.

Import Nerve.

(** [wf] speaks of the store, the domain entries and the target
    entries only. *)
Lemma wf_ext (s s' : NerveData) :
  heap s' = heap s -> domains s' = domains s -> targetDomains s' = targetDomains s ->
  wf s -> wf s'.
Proof. unfold wf. intros -> -> ->. trivial. Qed.

Lemma displayKept_refl (s : NerveData) : displayKept s s.
Proof. repeat split. exists []. rewrite app_nil_r. reflexivity. Qed.

Lemma displayKept_trans (s1 s2 s3 : NerveData) :
  displayKept s1 s2 -> displayKept s2 s3 -> displayKept s1 s3.
Proof.
  intros (He1 & Hd1 & x1 & Hh1) (He2 & Hd2 & x2 & Hh2).
  split; [congruence|]. split; [congruence|].
  exists (x1 ++ x2). rewrite Hh2, Hh1, app_assoc. reflexivity.
Qed.

Lemma displayKept_control (s s' : NerveData) :
  edgeScore s' = edgeScore s -> domains s' = domains s -> heap s' = heap s ->
  displayKept s s'.
Proof.
  intros He Hd Hh. split; [exact He|]. split; [exact Hd|].
  exists []. rewrite app_nil_r. exact Hh.
Qed.

End StoreBasics.

(** Closes [wf s'] when [s'] differs from a well-formed [s] in its
    control fields only. *)
Ltac wf_same H := eapply wf_ext; [| | |exact H]; reflexivity.

(** Closes [displayKept s s'] when [s'] has the display and the store
    of [s]. *)
Ltac display_same := apply displayKept_control; reflexivity.

Section StoreInvariant.

Import Nerve.

Lemma wf_newNerveData : wf newNerveData.
Proof.
  split; [reflexivity|]. split; [apply (bool_decide_unpack _); reflexivity|].
  intros d l Hin. simpl in Hin.
  repeat (apply elem_of_cons in Hin as [[= -> ->]|Hin]);
    try (split; [simpl; lia|]; eexists; split; [reflexivity|];
         split; [simpl; lia|left; reflexivity]).
  inversion Hin.
Qed.

Lemma wf_locs_bounded (s : NerveData) (l : nat) :
  wf s -> l ∈ (domains s).*2 -> (l < length (heap s))%nat.
Proof.
  intros (_ & _ & Hw) Hl.
  apply list_elem_of_fmap_1 in Hl as ([d l'] & -> & Hin). apply (Hw d l' Hin).
Qed.

Lemma setTargetDomain_store (d : string) (x : R) (s : NerveData) :
  heap (setTargetDomain d x s) = heap s ++ [x]
  /\ domains (setTargetDomain d x s) = domains s
  /\ targetDomains (setTargetDomain d x s)
     = if String.eqb d "__proto__" then targetDomains s
       else <[d := length (heap s)]> (targetDomains s).
Proof. unfold setTargetDomain. destruct (String.eqb d "__proto__"); repeat split. Qed.

Lemma setTargetDomain_control (d : string) (x : R) (s : NerveData) :
  edgeScore (setTargetDomain d x s) = edgeScore s
  /\ targetEdge (setTargetDomain d x s) = targetEdge s
  /\ regime (setTargetDomain d x s) = regime s
  /\ fragility (setTargetDomain d x s) = fragility s
  /\ simMode (setTargetDomain d x s) = simMode s
  /\ apiAvailable (setTargetDomain d x s) = apiAvailable s.
Proof. unfold setTargetDomain. destruct (String.eqb d "__proto__"); repeat split. Qed.

Lemma wf_setTargetDomain (d : string) (x : R) (s : NerveData) :
  wf s -> wf (setTargetDomain d x s).
Proof.
  intros Hwf. pose proof Hwf as (Hk & Hnd & Hw).
  destruct (setTargetDomain_store d x s) as (Hh & Hd & Ht).
  unfold wf. rewrite Hh, Hd, Ht, length_app. simpl length.
  split; [exact Hk|]. split; [exact Hnd|].
  intros d0 l0 Hin. destruct (Hw d0 l0 Hin) as (Hlt & l' & Hl' & Hlt' & Hor).
  split; [lia|].
  destruct (String.eqb d "__proto__").
  - exists l'. split; [exact Hl'|]. split; [lia|exact Hor].
  - destruct (decide (d = d0)) as [->|Hne].
    + exists (length (heap s)). rewrite lookup_insert_eq.
      split; [reflexivity|]. split; [lia|]. right.
      intros Hbad. apply (wf_locs_bounded s _ Hwf) in Hbad. lia.
    + exists l'. rewrite lookup_insert_ne by exact Hne.
      split; [exact Hl'|]. split; [lia|exact Hor].
Qed.

Lemma displayKept_setTargetDomain (d : string) (x : R) (s : NerveData) :
  displayKept s (setTargetDomain d x s).
Proof.
  destruct (setTargetDomain_store d x s) as (Hh & Hd & _).
  destruct (setTargetDomain_control d x s) as (He & _).
  split; [exact He|]. split; [exact Hd|]. exists [x]. exact Hh.
Qed.

(** On a well-formed store, a state that keeps the display shows the
    same domain scores. *)
Lemma displayKept_domainScore (s s' : NerveData) (d : string) :
  wf s -> displayKept s s' -> domainScore s' d = domainScore s d.
Proof.
  intros Hwf (_ & Hd & extra & Hh). unfold domainScore. rewrite Hd, Hh.
  destruct (lookupOwn d (domains s)) as [l|] eqn:Hl; [|reflexivity]. simpl.
  apply lookup_app_l.
  destruct Hwf as (_ & _ & Hw). apply (Hw d l). apply lookupOwn_elem, Hl.
Qed.

(** *** setSimLevel *)

Lemma applyPreset_inv (P : NerveData -> Prop) (s : NerveData) (e : string * R) :
  (forall d x s, P s -> P (setTargetDomain d x s)) -> P s -> P (applyPreset s e).
Proof.
  intros Hstep Hs. destruct e as [d x]. unfold applyPreset.
  destruct (bool_decide _); [apply Hstep|]; exact Hs.
Qed.

Lemma foldl_applyPreset_inv (P : NerveData -> Prop) (es : list (string * R)) (s : NerveData) :
  (forall d x s, P s -> P (setTargetDomain d x s)) -> P s -> P (foldl applyPreset s es).
Proof.
  intros Hstep. revert s. induction es as [|e es IH]; intros s Hs; simpl; [exact Hs|].
  apply IH, applyPreset_inv; assumption.
Qed.

Lemma setSimLevel_unfold (level : Z) (s : NerveData) :
  setSimLevel level s
  = let s0 := with_simMode true (with_simLevel (Z.rem level 8) s) in
    match simLevelAt (Z.rem level 8) with
    | None => (s0, false)
    | Some sim =>
        (foldl applyPreset
           (with_fragility (JNum (sim_fragility sim))
              (with_regime (JStr (sim_regime sim)) (with_targetEdge (edge sim) s0)))
           (sim_domains sim), true)
    end.
Proof. reflexivity. Qed.

Lemma wf_setSimLevel (level : Z) (s : NerveData) : wf s -> wf (setSimLevel level s).1.
Proof.
  intros Hwf. rewrite setSimLevel_unfold. cbv zeta.
  destruct (simLevelAt _) as [sim|]; simpl.
  - apply (foldl_applyPreset_inv wf); [apply wf_setTargetDomain|].
    wf_same Hwf.
  - wf_same Hwf.
Qed.

Lemma displayKept_setSimLevel (level : Z) (s : NerveData) :
  displayKept s (setSimLevel level s).1.
Proof.
  rewrite setSimLevel_unfold. cbv zeta.
  destruct (simLevelAt _) as [sim|]; simpl.
  - apply (foldl_applyPreset_inv (displayKept s)).
    + intros d x s' Hs'. eapply displayKept_trans; [exact Hs'|apply displayKept_setTargetDomain].
    + display_same.
  - display_same.
Qed.

(** What a ladder selection assigns in one step. *)
Lemma setSimLevel_assigns (level : Z) (s : NerveData) (sim : SimLevel) :
  simLevelAt (Z.rem level 8) = Some sim ->
  targetEdge (setSimLevel level s).1 = edge sim
  /\ regime (setSimLevel level s).1 = JStr (sim_regime sim)
  /\ fragility (setSimLevel level s).1 = JNum (sim_fragility sim)
  /\ simMode (setSimLevel level s).1 = true
  /\ apiAvailable (setSimLevel level s).1 = apiAvailable s
  /\ simLevel (setSimLevel level s).1 = Z.rem level 8.
Proof.
  intros Hsim. rewrite setSimLevel_unfold. cbv zeta. rewrite Hsim. simpl.
  set (s0 := with_fragility _ _).
  apply (foldl_applyPreset_inv (fun s' =>
    targetEdge s' = edge sim /\ regime s' = JStr (sim_regime sim)
    /\ fragility s' = JNum (sim_fragility sim) /\ simMode s' = true
    /\ apiAvailable s' = apiAvailable s /\ simLevel s' = Z.rem level 8)).
  - intros d x s' H. unfold setTargetDomain.
    destruct (String.eqb d "__proto__"); exact H.
  - repeat split.
Qed.

Lemma setSimLevel_mode (level : Z) (s : NerveData) :
  simMode (setSimLevel level s).1 = true
  /\ apiAvailable (setSimLevel level s).1 = apiAvailable s.
Proof.
  rewrite setSimLevel_unfold. cbv zeta.
  destruct (simLevelAt _) as [sim|]; simpl; [|split; reflexivity].
  apply (foldl_applyPreset_inv (fun s' => simMode s' = true /\ apiAvailable s' = apiAvailable s)).
  - intros d x s' H. unfold setTargetDomain.
    destruct (String.eqb d "__proto__"); exact H.
  - split; reflexivity.
Qed.

(** *** fetchLive *)

Lemma applyDomainScores_inv (P : NerveData -> Prop) (es : list (string * JsVal)) (s : NerveData) :
  (forall d x s, P s -> P (setTargetDomain d x s)) -> P s -> P (applyDomainScores es s).1.
Proof.
  intros Hstep. revert s. induction es as [|[d v] es IH]; intros s Hs; simpl; [exact Hs|].
  destruct (domainsHas s d); [|apply IH, Hs].
  destruct (getField v "score") as [[]|]; try (apply IH, Hs); try exact Hs.
  apply IH, Hstep, Hs.
Qed.

Lemma applyLive_inv (P : NerveData -> Prop) (data : JsVal) (s : NerveData) :
  (forall d x s, P s -> P (setTargetDomain d x s)) ->
  (forall e f m r u, P s ->
      P (with_lastUpdate u (with_regime r (with_momentum m (with_fragility f (with_targetEdge e s)))))) ->
  P s -> P (applyLive data s).1.
Proof.
  intros Hstep Hctl Hs. unfold applyLive. cbv zeta.
  destruct (truthy _ && isObjectType _).
  - apply applyDomainScores_inv; [exact Hstep|]. apply Hctl, Hs.
  - apply Hctl, Hs.
Qed.

Lemma fetchLive_inv (P : NerveData -> Prop) (r : FetchResult) (s : NerveData) :
  (forall d x s, P s -> P (setTargetDomain d x s)) ->
  (forall e f m r u s, P s ->
      P (with_lastUpdate u (with_regime r (with_momentum m (with_fragility f (with_targetEdge e s)))))) ->
  (forall b s, P s -> P (with_apiAvailable b s)) ->
  (forall b s, P s -> P (with_simMode b s)) ->
  P s -> P (fetchLive r s).1.
Proof.
  intros Hstep Hctl Hapi Hsim Hs.
  assert (Hfail : forall s, P s -> P (fetchFailed s)).
  { intros s' Hs'. unfold fetchFailed. cbv zeta.
    destruct (negb _); [apply Hsim|]; apply Hapi, Hs'. }
  unfold fetchLive. destruct (validated r) as [data|]; [|apply Hfail, Hs].
  destruct (negb (simMode s)).
  - pose proof (applyLive_inv P data s Hstep (fun e f m r u => Hctl e f m r u s) Hs) as Hl.
    destruct (applyLive data s) as [s' [|]]; simpl in *; [apply Hapi|apply Hfail]; exact Hl.
  - simpl. apply Hapi, Hs.
Qed.

Lemma wf_fetchLive (r : FetchResult) (s : NerveData) : wf s -> wf (fetchLive r s).1.
Proof.
  apply (fetchLive_inv wf).
  - apply wf_setTargetDomain.
  - intros e f m r' u s' H. wf_same H.
  - intros b s' H. wf_same H.
  - intros b s' H. wf_same H.
Qed.

Lemma displayKept_fetchLive (r : FetchResult) (s : NerveData) :
  displayKept s (fetchLive r s).1.
Proof.
  apply (fetchLive_inv (displayKept s)).
  - intros d x s' H. eapply displayKept_trans; [exact H|apply displayKept_setTargetDomain].
  - intros e f m r' u s' H. eapply displayKept_trans; [exact H|].
    display_same.
  - intros b s' H. eapply displayKept_trans; [exact H|]. display_same.
  - intros b s' H. eapply displayKept_trans; [exact H|]. display_same.
  - apply displayKept_refl.
Qed.

Lemma tryInitialFetch_cases (r : FetchResult) (s : NerveData) :
  tryInitialFetch r s = (fetchLive r s).1
  \/ tryInitialFetch r s = with_simMode false (with_apiAvailable true (fetchLive r s).1).
Proof.
  unfold tryInitialFetch. destruct (fetchLive r s) as [s' [d|]]; [|left; reflexivity].
  destruct (getField d "edge_score") as [[]|]; simpl; auto.
Qed.

Lemma toggleSimMode_cases (s : NerveData) :
  (toggleSimMode s).1 = s \/ (toggleSimMode s).1 = with_simMode (negb (simMode s)) s.
Proof.
  unfold toggleSimMode. destruct (apiAvailable s); [right|left; reflexivity].
  cbv zeta. destruct (negb (simMode (with_simMode _ _))); reflexivity.
Qed.

Lemma wf_step (e : Event) (s : NerveData) : wf s -> wf (step e s).
Proof.
  intros Hwf. destruct e as [now|r|r| | |level]; simpl.
  - apply wf_update, Hwf.
  - apply wf_fetchLive, Hwf.
  - destruct (tryInitialFetch_cases r s) as [-> | ->].
    + apply wf_fetchLive, Hwf.
    + wf_same (wf_fetchLive r s Hwf).
  - apply wf_setSimLevel. wf_same Hwf.
  - destruct (toggleSimMode_cases s) as [-> | ->]; [exact Hwf|].
    wf_same Hwf.
  - apply wf_setSimLevel, Hwf.
Qed.

Lemma wf_run (es : list Event) (s : NerveData) : wf s -> wf (run es s).
Proof.
  revert s. induction es as [|e es IH]; intros s Hwf; [exact Hwf|].
  apply IH, wf_step, Hwf.
Qed.

Lemma displayKept_step (e : Event) (s : NerveData) :
  (forall now, e <> Tick now) -> displayKept s (step e s).
Proof.
  intros Hne. destruct e as [now|r|r| | |level]; simpl.
  - exfalso. apply (Hne now). reflexivity.
  - apply displayKept_fetchLive.
  - destruct (tryInitialFetch_cases r s) as [-> | ->].
    + apply displayKept_fetchLive.
    + eapply displayKept_trans; [apply (displayKept_fetchLive r s)|].
      display_same.
  - eapply displayKept_trans; [|apply displayKept_setSimLevel].
    display_same.
  - destruct (toggleSimMode_cases s) as [-> | ->]; [apply displayKept_refl|].
    display_same.
  - apply displayKept_setSimLevel.
Qed.

Lemma update_closed_form_witness :
  wf newNerveData
  /\ edgeScore (ticks [0; 16; 33] (step (SetSimLevel 2) newNerveData))
     = 0.38 - (0.38 - 0.1) * (1 - 0.02) ^ 3.
Proof.
  split; [apply wf_newNerveData|].
  pose proof (update_closed_form [0; 16; 33] (step (SetSimLevel 2) newNerveData)
                (wf_step (SetSimLevel 2) newNerveData wf_newNerveData)) as (_ & He & _).
  exact He.
Defined.

End StoreInvariant.

(** ** The data module: fetching, the ladder and the mode toggle *)

Section Reconciler.

Import Nerve.

Lemma fetchFailed_fields (s : NerveData) :
  targetEdge (fetchFailed s) = targetEdge s
  /\ targetDomains (fetchFailed s) = targetDomains s
  /\ heap (fetchFailed s) = heap s
  /\ regime (fetchFailed s) = regime s
  /\ fragility (fetchFailed s) = fragility s
  /\ apiAvailable (fetchFailed s) = false
  /\ simMode (fetchFailed s) = true.
Proof.
  unfold fetchFailed. cbv zeta.
  change (simMode (with_apiAvailable false s)) with (simMode s).
  destruct (simMode s) eqn:Hm; simpl; repeat split; exact Hm.
Qed.

Lemma malformedResponse_rejected : validated malformedResponse = None.
Proof. reflexivity. Qed.

(** C2, as the code has it: a fetch that fails one of the checks of
    [fetchLive] (request rejected or timed out, status not ok,
    content type not JSON, body not parseable, [edge_score] not a
    number, [regime] empty) resolves to [null] without throwing and
    leaves the target edge score, the target domain entries, the
    store, the regime and the fragility as they were; it clears
    [apiAvailable], and the mode afterwards is SIMULATED: unchanged
    when the fetch settled in SIMULATED mode, demoted when it settled
    in LIVE mode. *)
Theorem fetchLive_validation_failure (r : FetchResult) (s : NerveData) :
  validated r = None ->
  fetchLive r s = (fetchFailed s, None)
  /\ targetEdge (fetchLive r s).1 = targetEdge s
  /\ targetDomains (fetchLive r s).1 = targetDomains s
  /\ (forall d, targetScore (fetchLive r s).1 d = targetScore s d)
  /\ regime (fetchLive r s).1 = regime s
  /\ fragility (fetchLive r s).1 = fragility s
  /\ apiAvailable (fetchLive r s).1 = false
  /\ simMode (fetchLive r s).1 = true
  /\ (simMode s = true -> simMode (fetchLive r s).1 = simMode s).
Proof.
  intros Hv.
  assert (Hf : fetchLive r s = (fetchFailed s, None)).
  { unfold fetchLive. rewrite Hv. reflexivity. }
  rewrite Hf. cbn [fst].
  destruct (fetchFailed_fields s) as (He & Ht & Hh & Hr & Hfr & Ha & Hm).
  repeat split; try assumption.
  - intros d. unfold targetScore. rewrite Ht, Hh. reflexivity.
  - intros Hs. rewrite Hm, Hs. reflexivity.
Qed.

Lemma fetchLive_validation_failure_witness :
  validated malformedResponse = None
  /\ fetchLive malformedResponse newNerveData = (fetchFailed newNerveData, None).
Proof.
  split; [reflexivity|].
  apply (fetchLive_validation_failure malformedResponse newNerveData). reflexivity.
Defined.

(** C2, as stated, fails in LIVE mode: the malformed body resolves to
    [null], and the mode does not stay LIVE. *)
Lemma fetchLive_malformed_leaves_live_mode :
  simMode liveSession = false
  /\ (fetchLive malformedResponse liveSession).2 = None
  /\ simMode (fetchLive malformedResponse liveSession).1 <> simMode liveSession.
Proof.
  split; [reflexivity|]. split; [reflexivity|].
  assert (H1 : simMode (fetchLive malformedResponse liveSession).1 = true) by reflexivity.
  assert (H2 : simMode liveSession = false) by reflexivity.
  rewrite H1, H2. discriminate.
Qed.



(** *** The mode toggle *)

Lemma step_keeps_simulated (e : Event) (s : NerveData) :
  simMode s = true -> apiAvailable s = false ->
  match e with
  | FetchSettled r | InitialFetchSettled r => fetchSucceeds r s = false
  | _ => True
  end ->
  simMode (step e s) = true /\ apiAvailable (step e s) = false.
Proof.
  intros Hm Ha Hno.
  assert (Hfetch : forall r, fetchSucceeds r s = false ->
            fetchLive r s = (fetchFailed s, None)).
  { intros r Hr. unfold fetchSucceeds in Hr. apply bool_decide_eq_false in Hr.
    unfold fetchLive in *. rewrite Hm in *. simpl in *.
    destruct (validated r); [|reflexivity].
    exfalso. apply Hr. eexists. reflexivity. }
  destruct (fetchFailed_fields s) as (_ & _ & _ & _ & _ & Hfa & Hfm).
  destruct e as [now|r|r| | |level]; simpl step.
  - destruct (update_fields now s) as (_ & _ & _ & _ & Hsm & Hap & _).
    rewrite Hsm, Hap. split; assumption.
  - rewrite (Hfetch r Hno). split; assumption.
  - unfold tryInitialFetch. rewrite (Hfetch r Hno). split; assumption.
  - destruct (setSimLevel_mode (simLevel (with_simMode true s) + 1) (with_simMode true s))
      as [H1 H2].
    unfold nextSimLevel. rewrite H1, H2. split; [reflexivity|exact Ha].
  - unfold toggleSimMode. rewrite Ha. split; assumption.
  - destruct (setSimLevel_mode level s) as [H1 H2]. rewrite H1, H2.
    split; [reflexivity|exact Ha].
Qed.

(** C5: while [apiAvailable] is false, [toggleSimMode] changes
    nothing and starts no fetch; and a session that is in SIMULATED
    mode with [apiAvailable] false stays so along every run of events
    in which no fetch succeeds, whatever the number of toggles. *)
Theorem toggleSimMode_refused (s : NerveData) :
  apiAvailable s = false ->
  toggleSimMode s = (s, false)
  /\ simMode (step KeyPressedSpace s) = simMode s
  /\ (forall es, simMode s = true -> noFetchSucceeds es s ->
        simMode (run es s) = true /\ apiAvailable (run es s) = false).
Proof.
  intros Ha.
  assert (Ht : toggleSimMode s = (s, false)).
  { unfold toggleSimMode. rewrite Ha. reflexivity. }
  split; [exact Ht|]. split; [simpl; rewrite Ht; reflexivity|].
  intros es. revert s Ha Ht.
  induction es as [|e es IH]; intros s Ha _ Hm Hno.
  - split; assumption.
  - destruct Hno as [Hno Hrest].
    destruct (step_keeps_simulated e s Hm Ha Hno) as [Hm' Ha'].
    change (run (e :: es) s) with (run es (step e s)).
    apply IH; try assumption.
    unfold toggleSimMode. rewrite Ha'. reflexivity.
Qed.

Lemma toggleSimMode_refused_witness :
  apiAvailable newNerveData = false
  /\ toggleSimMode newNerveData = (newNerveData, false)
  /\ simMode (run [KeyPressedSpace; FetchSettled malformedResponse; KeyPressedSpace]
                  newNerveData) = true.
Proof.
  split; [reflexivity|].
  destruct (toggleSimMode_refused newNerveData eq_refl) as (H1 & _ & H3).
  split; [exact H1|].
  apply (H3 [KeyPressedSpace; FetchSettled malformedResponse; KeyPressedSpace] eq_refl).
  repeat split.
Defined.

End Reconciler.

(** ** The data module: applying a live payload *)

Section LivePayload.

Import Nerve.
Local Open Scope string_scope.

Lemma truthy_JNum (x : R) : x <> 0 -> truthy (JNum x) = true.
Proof. intros Hx. simpl. destruct (Req_dec_T x 0); [contradiction|reflexivity]. Qed.

Lemma domainsHas_domain (s : NerveData) (d : string) :
  wf s -> d ∈ domainNames -> domainsHas s d = true.
Proof.
  intros (Hk & _) Hd. unfold domainsHas. rewrite Hk.
  rewrite (bool_decide_eq_true_2 _ Hd). reflexivity.
Qed.

(** A key that is neither a domain nor inherited is skipped. *)
Lemma applyDomainScores_unknown (d : string) (v : JsVal) (rest : list (string * JsVal))
    (s : NerveData) :
  d ∉ (domains s).*1 -> d ∉ objectPrototypeNames ->
  applyDomainScores ((d, v) :: rest) s = applyDomainScores rest s.
Proof.
  intros H1 H2. simpl. unfold domainsHas.
  rewrite (bool_decide_eq_false_2 _ H1), (bool_decide_eq_false_2 _ H2). reflexivity.
Qed.

(** A known key whose entry has no numeric [score] (and is not
    [null]) is skipped. *)
Lemma applyDomainScores_non_numeric (d : string) (v w : JsVal)
    (rest : list (string * JsVal)) (s : NerveData) :
  getField v "score" = Some w -> isNumber w = false ->
  applyDomainScores ((d, v) :: rest) s = applyDomainScores rest s.
Proof.
  intros Hv Hw. simpl. rewrite Hv.
  destruct (domainsHas s d); [|reflexivity].
  destruct w; try reflexivity. discriminate.
Qed.

(** The example payload of the specification, polled in LIVE mode. *)
Lemma fetchLive_example_payload (s : NerveData) :
  wf s -> simMode s = false ->
  (fetchLive (jsonResponse examplePayload) s).2 = Some examplePayload
  /\ targetEdge (fetchLive (jsonResponse examplePayload) s).1 = 0.42
  /\ regime (fetchLive (jsonResponse examplePayload) s).1 = JStr "STRESSED"
  /\ fragility (fetchLive (jsonResponse examplePayload) s).1 = JNum 0.3
  /\ targetScore (fetchLive (jsonResponse examplePayload) s).1 "Markets" = Some 0.5
  /\ (forall d, d <> "Markets" ->
        targetDomains (fetchLive (jsonResponse examplePayload) s).1 !! d = targetDomains s !! d)
  /\ (forall d, d ∈ domainNames -> d <> "Markets" ->
        targetScore (fetchLive (jsonResponse examplePayload) s).1 d = targetScore s d)
  /\ apiAvailable (fetchLive (jsonResponse examplePayload) s).1 = true
  /\ simMode (fetchLive (jsonResponse examplePayload) s).1 = false.
Proof.
  intros Hwf Hm.
  assert (Hv : validated (jsonResponse examplePayload) = Some examplePayload) by reflexivity.
  set (s0 := with_lastUpdate JUndefined
               (with_regime (JStr "STRESSED")
                  (with_momentum (JNum 0)
                     (with_fragility (JNum 0.3) (with_targetEdge 0.42 s))))).
  assert (Hwf0 : wf s0) by (wf_same Hwf).
  assert (Happly : applyLive examplePayload s = (setTargetDomain "Markets" 0.5 s0, true)).
  { unfold applyLive. cbv zeta.
    change (default JUndefined (getField examplePayload "edge_score")) with (JNum 0.42).
    change (default JUndefined (getField examplePayload "fragility_ratio")) with (JNum 0.3).
    change (default JUndefined (getField examplePayload "momentum")) with JUndefined.
    change (default JUndefined (getField examplePayload "regime")) with (JStr "STRESSED").
    change (default JUndefined (getField examplePayload "timestamp")) with JUndefined.
    change (default JUndefined (getField examplePayload "domain_scores"))
      with (JObj [("Markets", JObj [("score"%string, JNum 0.5)])]).
    unfold orElse. rewrite truthy_JNum by lra.
    change (truthy JUndefined) with false. cbv iota.
    change (truthy (JObj _) && isObjectType (JObj _)) with true. cbv iota.
    fold s0. simpl forInEntries. simpl applyDomainScores.
    rewrite (domainsHas_domain s0 "Markets" Hwf0) by (apply (bool_decide_unpack _); reflexivity).
    reflexivity. }
  unfold fetchLive. rewrite Hv, Hm. simpl negb. cbv iota. rewrite Happly.
  cbv iota beta.
  destruct (setTargetDomain_store "Markets" 0.5 s0) as (Hh & Hd & Ht).
  change (String.eqb "Markets" "__proto__") with false in Ht. cbv iota in Ht.
  destruct (setTargetDomain_control "Markets" 0.5 s0) as (_ & Hte & Hr & Hf & Hsm & _).
  split; [reflexivity|]. cbn [fst].
  split; [exact Hte|]. split; [exact Hr|]. split; [exact Hf|].
  assert (Hbound : forall d l, targetDomains s !! d = Some l -> d ∈ domainNames ->
                     (l < length (heap s))%nat).
  { intros d l Hl Hd'. destruct Hwf as (Hk & _ & Hw). rewrite <- Hk in Hd'.
    apply list_elem_of_fmap_1 in Hd' as ([d' l0] & -> & Hin).
    destruct (Hw d' l0 Hin) as (_ & l' & Hl' & Hlt & _). simpl in Hl.
    rewrite Hl in Hl'. injection Hl' as ->. exact Hlt. }
  set (s1 := setTargetDomain "Markets" 0.5 s0) in *.
  change (heap s0) with (heap s) in Hh.
  change (targetDomains s0) with (targetDomains s) in Ht.
  split; [|split; [|split; [|split]]].
  - unfold targetScore.
    change (targetDomains (with_apiAvailable true s1)) with (targetDomains s1).
    change (heap (with_apiAvailable true s1)) with (heap s1).
    rewrite Ht, Hh, lookup_insert_eq. cbn [mbind option_bind].
    apply list_lookup_middle. reflexivity.
  - intros d Hne.
    change (targetDomains (with_apiAvailable true s1)) with (targetDomains s1).
    rewrite Ht. apply lookup_insert_ne. congruence.
  - intros d Hd' Hne. unfold targetScore.
    change (targetDomains (with_apiAvailable true s1)) with (targetDomains s1).
    change (heap (with_apiAvailable true s1)) with (heap s1).
    rewrite Ht, Hh, lookup_insert_ne by congruence.
    destruct (targetDomains s !! d) as [l|] eqn:Hl; [|reflexivity].
    cbn [mbind option_bind].
    apply lookup_app_l. apply (Hbound d l Hl Hd').
  - reflexivity.
  - change (simMode (with_apiAvailable true s1)) with (simMode s1).
    rewrite Hsm. exact Hm.
Qed.

(** C4 fails on the code for a key such as [constructor]: it is not
    one of the five domains, yet [this.domains["constructor"]] is the
    inherited, truthy constructor, so the key is not dropped: the
    target entries of the LIVE session gain a sixth key holding the
    payload's score. *)
Theorem fetchLive_keeps_inherited_key :
  simMode liveSession = false
  /\ getDomainNames liveSession = domainNames
  /\ ("constructor" ∉ domainNames)
  /\ targetDomains liveSession !! "constructor" = None
  /\ (fetchLive (jsonResponse inheritedKeyPayload) liveSession).2 = Some inheritedKeyPayload
  /\ (targetDomains (fetchLive (jsonResponse inheritedKeyPayload) liveSession).1)
       !! "constructor" = Some 5%nat
  /\ targetScore (fetchLive (jsonResponse inheritedKeyPayload) liveSession).1 "constructor"
     = Some 0.5.
Proof.
  split; [reflexivity|]. split; [reflexivity|].
  split; [apply (bool_decide_unpack _); reflexivity|].
  split; [reflexivity|].
  assert (Happly : applyLive inheritedKeyPayload liveSession
                   = (setTargetDomain "constructor" 0.5
                        (with_lastUpdate JUndefined
                           (with_regime (JStr "STRESSED")
                              (with_momentum (JNum 0)
                                 (with_fragility (JNum 0)
                                    (with_targetEdge 0.42 liveSession))))), true)).
  { unfold applyLive. cbv zeta.
    change (default JUndefined (getField inheritedKeyPayload "edge_score")) with (JNum 0.42).
    change (default JUndefined (getField inheritedKeyPayload "fragility_ratio")) with JUndefined.
    change (default JUndefined (getField inheritedKeyPayload "momentum")) with JUndefined.
    change (default JUndefined (getField inheritedKeyPayload "regime")) with (JStr "STRESSED").
    change (default JUndefined (getField inheritedKeyPayload "timestamp")) with JUndefined.
    change (default JUndefined (getField inheritedKeyPayload "domain_scores"))
      with (JObj [("constructor", JObj [("score"%string, JNum 0.5)])]).
    reflexivity. }
  assert (Hf : fetchLive (jsonResponse inheritedKeyPayload) liveSession
               = (with_apiAvailable true
                    (setTargetDomain "constructor" 0.5
                        (with_lastUpdate JUndefined
                           (with_regime (JStr "STRESSED")
                              (with_momentum (JNum 0)
                                 (with_fragility (JNum 0)
                                    (with_targetEdge 0.42 liveSession)))))),
                  Some inheritedKeyPayload)).
  { unfold fetchLive.
    change (validated (jsonResponse inheritedKeyPayload)) with (Some inheritedKeyPayload).
    cbv iota. change (negb (simMode liveSession)) with true. cbv iota.
    rewrite Happly. reflexivity. }
  rewrite Hf. split; [reflexivity|]. split; reflexivity.
Qed.

(** A [null] entry under a known domain makes the [score] read
    throw inside the loop: the fetch ends in the [catch] block after
    the target edge score and the regime have been overwritten. *)
Lemma fetchLive_null_entry :
  validated (jsonResponse nullEntryPayload) = Some nullEntryPayload
  /\ (fetchLive (jsonResponse nullEntryPayload) liveSession).2 = None
  /\ targetEdge liveSession = 0.1
  /\ targetEdge (fetchLive (jsonResponse nullEntryPayload) liveSession).1 = 0.42
  /\ simMode (fetchLive (jsonResponse nullEntryPayload) liveSession).1 = true.
Proof. repeat split. Qed.

End LivePayload.

(** ** The pulse sketch: the history buffers *)

Section History.

Import Nerve Pulse.

Lemma pushHistory_below (v : R) (h : list R) :
  (length h < maxHistory)%nat -> pushHistory v h = h ++ [v].
Proof.
  intros Hlt. unfold pushHistory. cbv zeta.
  destruct (Nat.ltb_spec maxHistory (length (h ++ [v]))) as [Hgt|_]; [|reflexivity].
  rewrite length_app in Hgt. simpl in Hgt. lia.
Qed.

Lemma pushHistory_full (v x : R) (h : list R) :
  length (x :: h) = maxHistory -> pushHistory v (x :: h) = h ++ [v].
Proof.
  intros Hlen. unfold pushHistory. cbv zeta.
  destruct (Nat.ltb_spec maxHistory (length ((x :: h) ++ [v]))) as [_|Hle]; [reflexivity|].
  rewrite length_app in Hle. simpl in Hle. simpl in Hlen. lia.
Qed.

Lemma maxHistory_pos : (0 < maxHistory)%nat.
Proof. unfold maxHistory. lia. Qed.

Lemma pushHistory_length (v : R) (h : list R) :
  (length h <= maxHistory)%nat -> (length (pushHistory v h) <= maxHistory)%nat.
Proof.
  intros Hle. destruct (decide (length h = maxHistory)) as [Heq|Hne].
  - destruct h as [|x h]; [pose proof maxHistory_pos; simpl in Heq; lia|].
    rewrite pushHistory_full by exact Heq.
    rewrite length_app. simpl in *. lia.
  - rewrite pushHistory_below by lia. rewrite length_app. simpl. lia.
Qed.

Lemma pushHistory_length_full (v : R) (h : list R) :
  length h = maxHistory -> length (pushHistory v h) = maxHistory.
Proof.
  intros Heq. destruct h as [|x h]; [pose proof maxHistory_pos; simpl in Heq; lia|].
  rewrite pushHistory_full by exact Heq. rewrite length_app. simpl in *. lia.
Qed.

Lemma pushHistory_full_tail (v : R) (h : list R) :
  length h = maxHistory -> pushHistory v h = tail h ++ [v].
Proof.
  intros Heq. destruct h as [|x h]; [pose proof maxHistory_pos; simpl in Heq; lia|].
  apply pushHistory_full, Heq.
Qed.

(** A loop that touches the entry of each name once. *)
Lemma foldl_alter_lookup (f : string -> list R -> list R) (names : list string)
    (dh : gmap string (list R)) (d : string) :
  NoDup names ->
  foldl (fun m d' => alter (f d') d' m) dh names !! d
  = if decide (d ∈ names) then f d <$> dh !! d else dh !! d.
Proof.
  revert dh. induction names as [|n names IH]; intros dh Hnd; cbn [foldl].
  - destruct (decide (d ∈ [])) as [Hin|_]; [inversion Hin|reflexivity].
  - apply NoDup_cons in Hnd as [Hn Hnd]. rewrite IH by exact Hnd.
    destruct (decide (d = n)) as [->|Hne].
    + rewrite decide_False by exact Hn. rewrite decide_True by apply list_elem_of_here.
      apply lookup_alter_eq.
    + rewrite lookup_alter_ne by congruence.
      destruct (decide (d ∈ names)) as [Hin|Hnin].
      * rewrite decide_True by (apply list_elem_of_further, Hin). reflexivity.
      * rewrite decide_False; [reflexivity|].
        intros Hbad. apply elem_of_cons in Hbad as [?|?]; contradiction.
Qed.

Section Frame.

Variable noise : R -> R.

Lemma draw_nerve (now : R) (s : Sketch) :
  nerve (draw noise now s) = (update now (nerve s)).1.
Proof. unfold draw. cbv zeta. destruct (Rgt_dec _ _); reflexivity. Qed.

Lemma draw_history (now : R) (s : Sketch) :
  exists v, history (draw noise now s) = pushHistory v (history s).
Proof. unfold draw. cbv zeta. destruct (Rgt_dec _ _); eexists; reflexivity. Qed.

Lemma draw_domainHistories (now : R) (s : Sketch) :
  exists f : string -> R,
    domainHistories (draw noise now s)
    = foldl (fun m d => alter (pushHistory (f d)) d m) (domainHistories s)
        (getDomainNames (nerve s)).
Proof.
  unfold draw. cbv zeta.
  assert (Hn : getDomainNames (update now (nerve s)).1 = getDomainNames (nerve s)).
  { unfold getDomainNames. destruct (update_fields now (nerve s)) as (_ & _ & -> & _).
    reflexivity. }
  destruct (Rgt_dec _ _); simpl; rewrite Hn; eexists (fun d => _); reflexivity.
Qed.

(** One frame, on any sketch whose domain names are distinct: each
    buffer receives exactly one push. *)
Lemma draw_pushes_once (now : R) (s : Sketch) :
  NoDup (getDomainNames (nerve s)) ->
  (exists v, history (draw noise now s) = pushHistory v (history s))
  /\ (forall d b, d ∈ getDomainNames (nerve s) -> domainHistories s !! d = Some b ->
        exists v, domainHistories (draw noise now s) !! d = Some (pushHistory v b))
  /\ (forall d, d ∉ getDomainNames (nerve s) ->
        domainHistories (draw noise now s) !! d = domainHistories s !! d).
Proof.
  intros Hnd. split; [apply draw_history|].
  destruct (draw_domainHistories now s) as [f Hf].
  split.
  - intros d b Hd Hb. exists (f d). rewrite Hf.
    rewrite (foldl_alter_lookup (fun d => pushHistory (f d))) by exact Hnd.
    rewrite decide_True by exact Hd. rewrite Hb. reflexivity.
  - intros d Hd. rewrite Hf.
    rewrite (foldl_alter_lookup (fun d => pushHistory (f d))) by exact Hnd.
    rewrite decide_False by exact Hd. reflexivity.
Qed.

Lemma draw_withinCapacity (now : R) (s : Sketch) :
  NoDup (getDomainNames (nerve s)) -> withinCapacity s -> withinCapacity (draw noise now s).
Proof.
  intros Hnd [Hh Hdh].
  destruct (draw_pushes_once now s Hnd) as ([v Hv] & Hin & Hout).
  split.
  - rewrite Hv. apply pushHistory_length, Hh.
  - intros d b Hb.
    destruct (decide (d ∈ getDomainNames (nerve s))) as [Hd|Hd].
    + destruct (domainHistories s !! d) as [b0|] eqn:Hb0.
      * destruct (Hin d b0 Hd Hb0) as [v' Hv']. rewrite Hv' in Hb. injection Hb as <-.
        apply pushHistory_length, (Hdh d b0 Hb0).
      * destruct (draw_domainHistories now s) as [f Hf]. rewrite Hf in Hb.
        rewrite (foldl_alter_lookup (fun d => pushHistory (f d))) in Hb by exact Hnd.
        rewrite decide_True in Hb by exact Hd. rewrite Hb0 in Hb. discriminate.
    + rewrite (Hout d Hd) in Hb. apply (Hdh d b Hb).
Qed.

Lemma prefill_iter (n : nat) :
  let names := getDomainNames newNerveData in
  let empty : gmap string (list R) := foldl (fun m d => <[d := []]> m) ∅ names in
  (Nat.iter n (prefill names) ([], empty)).1 = replicate n 0.1
  /\ (forall d, d ∈ domainNames ->
       (Nat.iter n (prefill names) ([], empty)).2 !! d = Some (replicate n 0.01))
  /\ (forall d, d ∉ domainNames ->
       (Nat.iter n (prefill names) ([], empty)).2 !! d = None).
Proof.
  intros names empty. induction n as [|n (IH1 & IH2 & IH3)].
  - split; [reflexivity|]. split.
    + intros d Hd. simpl. unfold domainNames in Hd.
      repeat (apply elem_of_cons in Hd as [->|Hd]; [reflexivity|]). inversion Hd.
    + intros d Hd. simpl. unfold empty, names. simpl.
      unfold domainNames in Hd.
      repeat (rewrite lookup_insert_ne
                by (intros <-; apply Hd; apply (bool_decide_unpack _); reflexivity)).
      apply lookup_empty.
  - change (Nat.iter (S n) (prefill names) ([], empty))
      with (prefill names (Nat.iter n (prefill names) ([], empty))).
    unfold prefill at 1 3 5. cbn [fst snd]. split; [|split].
    + rewrite IH1. symmetry. apply replicate_S_end.
    + intros d Hd.
      rewrite (foldl_alter_lookup (fun _ h => h ++ [0.01])) by apply domainNames_NoDup.
      rewrite decide_True by exact Hd. rewrite (IH2 d Hd). simpl.
      rewrite <- replicate_S_end. reflexivity.
    + intros d Hd.
      rewrite (foldl_alter_lookup (fun _ h => h ++ [0.01])) by apply domainNames_NoDup.
      rewrite decide_False by exact Hd. apply (IH3 d Hd).
Qed.

Lemma setup_buffersFull : buffersFull setup.
Proof.
  destruct (prefill_iter maxHistory) as (H1 & H2 & H3).
  split; [reflexivity|]. split; [|split].
  - unfold setup. cbv zeta. cbn [history]. rewrite H1. apply length_replicate.
  - intros d Hd. eexists. split.
    + unfold setup. cbv zeta. cbn [domainHistories]. apply (H2 d Hd).
    + apply length_replicate.
  - intros d Hd. unfold setup. cbv zeta. cbn [domainHistories]. apply (H3 d Hd).
Qed.

Lemma step_domains (e : Event) (s : NerveData) : domains (step e s) = domains s.
Proof.
  destruct e as [now| | | | | ]; try (apply displayKept_step; intros now'; discriminate).
  apply update_fields.
Qed.

Lemma sketchStep_buffersFull (ev : SketchEvent) (s : Sketch) :
  buffersFull s -> buffersFull (sketchStep noise ev s).
Proof.
  intros (Hn & Hh & Hdh & Hno). destruct ev as [now|e]; simpl sketchStep.
  - assert (Hnd : NoDup (getDomainNames (nerve s))) by (rewrite Hn; apply domainNames_NoDup).
    destruct (draw_pushes_once now s Hnd) as ([v Hv] & Hin & Hout).
    split; [|split; [|split]].
    + rewrite draw_nerve. unfold getDomainNames in *.
      destruct (update_fields now (nerve s)) as (_ & _ & -> & _). exact Hn.
    + rewrite Hv. apply pushHistory_length_full, Hh.
    + intros d Hd. destruct (Hdh d Hd) as (b & Hb & Hlen).
      rewrite <- Hn in Hd. destruct (Hin d b Hd Hb) as [v' Hv'].
      exists (pushHistory v' b). split; [exact Hv'|apply pushHistory_length_full, Hlen].
    + intros d Hd. rewrite Hout by (rewrite Hn; exact Hd). apply (Hno d Hd).
  - split; [|split; [|split]; assumption].
    unfold getDomainNames in *. simpl. rewrite step_domains. exact Hn.
Qed.

Lemma sketchRun_buffersFull (evs : list SketchEvent) (s : Sketch) :
  buffersFull s -> buffersFull (sketchRun noise evs s).
Proof.
  revert s. induction evs as [|ev evs IH]; intros s Hs; [exact Hs|].
  apply IH, sketchStep_buffersFull, Hs.
Qed.

(** *** What a frame pushes *)

Lemma update_domainNames (now : R) (n : NerveData) :
  getDomainNames (update now n).1 = getDomainNames n.
Proof.
  unfold getDomainNames. destruct (update_fields now n) as (_ & _ & -> & _). reflexivity.
Qed.

Lemma draw_history_sample (now : R) (s : Sketch) :
  history (draw noise now s) = pushHistory (mainSample noise now s) (history s).
Proof.
  unfold draw, mainSample, beatValueAt. cbv zeta. destruct (Rgt_dec _ _); reflexivity.
Qed.

Lemma draw_domainHistories_sample (now : R) (s : Sketch) :
  domainHistories (draw noise now s)
  = foldl (fun m d => alter (pushHistory (domainSample noise now s d)) d m)
      (domainHistories s) (getDomainNames (nerve s)).
Proof.
  rewrite <- (update_domainNames now (nerve s)).
  unfold draw, domainSample, beatValueAt. cbv zeta. destruct (Rgt_dec _ _); reflexivity.
Qed.

Lemma draw_domain_sample (now : R) (s : Sketch) (d : string) (b : list R) :
  NoDup (getDomainNames (nerve s)) -> d ∈ getDomainNames (nerve s) ->
  domainHistories s !! d = Some b ->
  domainHistories (draw noise now s) !! d = Some (pushHistory (domainSample noise now s d) b).
Proof.
  intros Hnd Hd Hb. rewrite draw_domainHistories_sample.
  rewrite (foldl_alter_lookup (fun d => pushHistory (domainSample noise now s d))) by exact Hnd.
  rewrite decide_True by exact Hd. rewrite Hb. reflexivity.
Qed.

Lemma drop_push_full (k : nat) (h rest : list R) (v : R) :
  length h = maxHistory ->
  drop k (pushHistory v h ++ rest) = drop (S k) (h ++ v :: rest).
Proof.
  intros Hlen. rewrite pushHistory_full_tail by exact Hlen.
  destruct h as [|x h]; [pose proof maxHistory_pos; simpl in Hlen; lia|].
  cbn [tail]. rewrite <- app_assoc. reflexivity.
Qed.

(** Consecutive frames on full buffers: after [k] frames each buffer
    is what it was, followed by the [k] samples in the order of the
    frames, less its [k] oldest elements. *)
Lemma frames_fifo (nows : list R) (s : Sketch) :
  buffersFull s ->
  history (sketchRun noise (Frame <$> nows) s)
  = drop (length nows) (history s ++ mainSamples noise nows s)
  /\ forall d, d ∈ domainNames ->
       exists b, domainHistories s !! d = Some b
                 /\ domainHistories (sketchRun noise (Frame <$> nows) s) !! d
                    = Some (drop (length nows) (b ++ domainSamples noise d nows s)).
Proof.
  revert s. induction nows as [|now nows IH]; intros s Hfull.
  - destruct Hfull as (_ & _ & Hdh & _). split.
    + cbn. rewrite app_nil_r. reflexivity.
    + intros d Hd. destruct (Hdh d Hd) as (b & Hb & _). exists b.
      split; [exact Hb|]. cbn. rewrite app_nil_r. exact Hb.
  - pose proof (sketchStep_buffersFull (Frame now) s Hfull) as Hfull'.
    change (sketchStep noise (Frame now) s) with (draw noise now s) in Hfull'.
    change (sketchRun noise (Frame <$> now :: nows) s)
      with (sketchRun noise (Frame <$> nows) (draw noise now s)).
    destruct (IH (draw noise now s) Hfull') as [IH1 IH2].
    destruct Hfull as (Hn & Hh & Hdh & _).
    assert (Hnd : NoDup (getDomainNames (nerve s))) by (rewrite Hn; apply domainNames_NoDup).
    split.
    + rewrite IH1, draw_history_sample. cbn [mainSamples length].
      apply drop_push_full, Hh.
    + intros d Hd. destruct (Hdh d Hd) as (b & Hb & Hlen). exists b. split; [exact Hb|].
      destruct (IH2 d Hd) as (b' & Hb' & Hrun). rewrite Hrun.
      rewrite (draw_domain_sample now s d b Hnd) in Hb' by (rewrite ?Hn; assumption).
      injection Hb' as <-. cbn [domainSamples length]. f_equal.
      apply drop_push_full, Hlen.
Qed.

(** C6: in every sketch reached from [setup()] by frames, inputs and
    settled fetches, the main history and the five domain histories
    hold exactly [maxHistory = 800] samples, so never more; the next
    frame appends exactly one value to each of them, the sample of
    that frame, and removes exactly the oldest one, keeping the others
    in their order.  After any number of further frames each buffer is
    the old one followed by the samples of those frames in the order
    of the frames, without as many of its oldest elements: insertion
    order is time order.  On any sketch at all, a frame pushes its
    sample once onto each buffer; a push onto a buffer that is not
    full appends only, and a push onto a full buffer drops its first
    element. *)
Theorem history_buffers_fifo (evs : list SketchEvent) (now : R) :
  let s := sketchRun noise evs setup in
  maxHistory = 800%nat
  /\ withinCapacity s
  /\ length (history s) = maxHistory
  /\ (forall d, d ∈ domainNames ->
        exists b, domainHistories s !! d = Some b /\ length b = maxHistory)
  /\ history (draw noise now s) = tail (history s) ++ [mainSample noise now s]
  /\ (forall d, d ∈ domainNames ->
        exists b, domainHistories s !! d = Some b
                  /\ domainHistories (draw noise now s) !! d
                     = Some (tail b ++ [domainSample noise now s d]))
  /\ withinCapacity (draw noise now s)
  /\ (forall v h, (length h < maxHistory)%nat -> pushHistory v h = h ++ [v])
  /\ (forall v x h, length (x :: h) = maxHistory -> pushHistory v (x :: h) = h ++ [v])
  /\ (forall s0 : Sketch,
        history (draw noise now s0) = pushHistory (mainSample noise now s0) (history s0))
  /\ (forall (s0 : Sketch) d b,
        NoDup (getDomainNames (nerve s0)) -> d ∈ getDomainNames (nerve s0) ->
        domainHistories s0 !! d = Some b ->
        domainHistories (draw noise now s0) !! d
        = Some (pushHistory (domainSample noise now s0 d) b))
  /\ (forall nows : list R,
        history (sketchRun noise (Frame <$> nows) s)
        = drop (length nows) (history s ++ mainSamples noise nows s)
        /\ forall d, d ∈ domainNames ->
             exists b, domainHistories s !! d = Some b
                       /\ domainHistories (sketchRun noise (Frame <$> nows) s) !! d
                          = Some (drop (length nows) (b ++ domainSamples noise d nows s))).
Proof.
  cbv zeta. set (s := sketchRun noise evs setup).
  pose proof (sketchRun_buffersFull evs setup setup_buffersFull) as Hfull.
  fold s in Hfull. pose proof Hfull as (Hn & Hh & Hdh & Hno).
  assert (Hnd : NoDup (getDomainNames (nerve s))) by (rewrite Hn; apply domainNames_NoDup).
  assert (Hcap : withinCapacity s).
  { split; [rewrite Hh; reflexivity|].
    intros d b Hb.
    destruct (decide (d ∈ domainNames)) as [Hd|Hd].
    - destruct (Hdh d Hd) as (b' & Hb' & Hlen). rewrite Hb in Hb'. injection Hb' as <-.
      rewrite Hlen. reflexivity.
    - rewrite (Hno d Hd) in Hb. discriminate. }
  split; [reflexivity|]. split; [exact Hcap|]. split; [exact Hh|]. split; [exact Hdh|].
  split; [|split; [|split; [|split; [|split; [|split; [|split]]]]]].
  - rewrite draw_history_sample. apply pushHistory_full_tail, Hh.
  - intros d Hd. destruct (Hdh d Hd) as (b & Hb & Hlen).
    exists b. split; [exact Hb|].
    rewrite (draw_domain_sample now s d b Hnd) by (rewrite ?Hn; assumption).
    f_equal. apply pushHistory_full_tail, Hlen.
  - apply draw_withinCapacity; assumption.
  - apply pushHistory_below.
  - apply pushHistory_full.
  - intros s0. apply draw_history_sample.
  - intros s0 d b Hnd0 Hd Hb. apply draw_domain_sample; assumption.
  - intros nows. apply frames_fifo, Hfull.
Qed.

End Frame.

End History.

(** * Further properties of the data module *)

Section Ladder.

Import Nerve.

Lemma simLevelAt_range (i : Z) :
  (0 <= i < 8)%Z ->
  exists sim, simLevelAt i = Some sim /\ (sim_domains sim).*1 = domainNames.
Proof.
  intros Hi.
  assert (Hc : i = 0%Z \/ i = 1%Z \/ i = 2%Z \/ i = 3%Z \/ i = 4%Z \/ i = 5%Z
               \/ i = 6%Z \/ i = 7%Z) by lia.
  destruct Hc as [->|[->|[->|[->|[->|[->|[->| ->]]]]]]];
    eexists; (split; [reflexivity|reflexivity]).
Qed.

Lemma simLevelAt_Some (i : Z) (sim : SimLevel) :
  simLevelAt i = Some sim -> (0 <= i < 8)%Z.
Proof.
  unfold simLevelAt. destruct (Z.ltb_spec i 0) as [|Hi]; [discriminate|].
  intros H. apply lookup_lt_Some in H. simpl in H. lia.
Qed.

Lemma setSimLevel_simLevel (level : Z) (s : NerveData) :
  simLevel (setSimLevel level s).1 = Z.rem level 8.
Proof.
  rewrite setSimLevel_unfold. cbv zeta.
  destruct (simLevelAt _) as [sim|]; simpl; [|reflexivity].
  apply (foldl_applyPreset_inv (fun s' => simLevel s' = Z.rem level 8)); [|reflexivity].
  intros d x s' H. unfold setTargetDomain. destruct (String.eqb d "__proto__"); exact H.
Qed.

Lemma setSimLevel_completes (level : Z) (s : NerveData) :
  (setSimLevel level s).2 = true <-> (0 <= Z.rem level 8)%Z.
Proof.
  rewrite setSimLevel_unfold. cbv zeta.
  destruct (simLevelAt (Z.rem level 8)) as [sim|] eqn:Hsim; cbn [fst snd].
  - apply simLevelAt_Some in Hsim. split; [lia|reflexivity].
  - split; [discriminate|]. intros H0.
    assert (Hlt : (Z.rem level 8 < 8)%Z).
    { destruct (Z.lt_ge_cases level 0) as [Hl|Hl].
      - pose proof (Z.rem_bound_pos_neg level 8 ltac:(lia) ltac:(lia)). lia.
      - apply Z.rem_bound_pos; lia. }
    destruct (simLevelAt_range (Z.rem level 8)) as (sim & Hs & _); [lia|congruence].
Qed.

Lemma nextSimLevel_simLevel (s : NerveData) :
  (0 <= simLevel s)%Z ->
  simLevel (nextSimLevel s).1 = ((simLevel s + 1) mod 8)%Z.
Proof.
  intros H0. unfold nextSimLevel. rewrite setSimLevel_simLevel.
  apply Z.rem_mod_nonneg; lia.
Qed.

Lemma iter_nextSimLevel (n : nat) (s : NerveData) :
  (0 <= simLevel s < 8)%Z ->
  simLevel (Nat.iter n (fun s => (nextSimLevel s).1) s) = ((simLevel s + Z.of_nat n) mod 8)%Z.
Proof.
  intros Hs. induction n as [|n IH].
  - simpl. rewrite Z.add_0_r. symmetry. apply Z.mod_small. exact Hs.
  - change (Nat.iter (S n) ?f s) with (f (Nat.iter n f s)). cbv beta.
    rewrite nextSimLevel_simLevel.
    + rewrite IH. rewrite Z.add_mod_idemp_l by lia. f_equal. lia.
    + rewrite IH. apply Z.mod_pos_bound. lia.
Qed.

Lemma nextSimLevel_cycle_aux (s : NerveData) :
  (0 <= simLevel s < 8)%Z -> (nextSimLevel s).2 = true.
Proof.
  intros Hs. unfold nextSimLevel. apply setSimLevel_completes.
  rewrite Z.rem_mod_nonneg by lia. apply Z.mod_pos_bound. lia.
Qed.

(** X1: The ladder is a cycle of eight: from a level in [0, 8),
    [nextSimLevel] completes without a [TypeError], moves to the next
    level modulo 8 and forces SIMULATED mode; eight advances come back
    to the level they started from. *)
Theorem nextSimLevel_cycle (s : NerveData) :
  (0 <= simLevel s < 8)%Z ->
  (nextSimLevel s).2 = true
  /\ simLevel (nextSimLevel s).1 = ((simLevel s + 1) mod 8)%Z
  /\ (0 <= simLevel (nextSimLevel s).1 < 8)%Z
  /\ simMode (nextSimLevel s).1 = true
  /\ simLevel (Nat.iter 8 (fun s => (nextSimLevel s).1) s) = simLevel s.
Proof.
  intros Hs.
  assert (Hn : simLevel (nextSimLevel s).1 = ((simLevel s + 1) mod 8)%Z)
    by (apply nextSimLevel_simLevel; lia).
  split; [|split; [exact Hn|split; [|split]]].
  - apply nextSimLevel_cycle_aux, Hs.
  - rewrite Hn. apply Z.mod_pos_bound. lia.
  - apply setSimLevel_mode.
  - rewrite iter_nextSimLevel by exact Hs.
    change (Z.of_nat 8) with (1 * 8)%Z. rewrite Z.mod_add by lia.
    apply Z.mod_small. exact Hs.
Qed.

Lemma nextSimLevel_cycle_witness :
  (0 <= simLevel newNerveData < 8)%Z
  /\ (nextSimLevel newNerveData).2 = true
  /\ simLevel (nextSimLevel newNerveData).1 = ((simLevel newNerveData + 1) mod 8)%Z.
Proof.
  assert (H : (0 <= simLevel newNerveData < 8)%Z) by (simpl; lia).
  split; [exact H|].
  destruct (nextSimLevel_cycle newNerveData H) as (H1 & H2 & _).
  split; assumption.
Defined.

(** X2: A negative level that is not a multiple of 8 selects no preset:
    [setSimLevel] stops at [sim.edge] with a [TypeError], after it has
    stored the negative index and forced SIMULATED mode; the targets,
    the regime and the fragility are as before. *)
Theorem setSimLevel_negative_level (level : Z) (s : NerveData) :
  (level < 0)%Z -> (Z.rem level 8 <> 0)%Z ->
  setSimLevel level s = (with_simMode true (with_simLevel (Z.rem level 8) s), false)
  /\ (simLevel (setSimLevel level s).1 < 0)%Z
  /\ targetEdge (setSimLevel level s).1 = targetEdge s
  /\ targetDomains (setSimLevel level s).1 = targetDomains s
  /\ regime (setSimLevel level s).1 = regime s.
Proof.
  intros Hl Hr.
  assert (Hneg : (Z.rem level 8 < 0)%Z).
  { pose proof (Z.rem_bound_pos_neg level 8 ltac:(lia) ltac:(lia)). lia. }
  assert (Hat : simLevelAt (Z.rem level 8) = None).
  { unfold simLevelAt. destruct (Z.ltb_spec (Z.rem level 8) 0); [reflexivity|lia]. }
  rewrite setSimLevel_unfold. cbv zeta. rewrite Hat.
  repeat split. simpl. exact Hneg.
Qed.

Lemma setSimLevel_negative_level_witness :
  (-1 < 0)%Z /\ (Z.rem (-1) 8 <> 0)%Z
  /\ (setSimLevel (-1) newNerveData).2 = false.
Proof.
  assert (H1 : (-1 < 0)%Z) by lia.
  assert (H2 : (Z.rem (-1) 8 <> 0)%Z) by (intros H; discriminate H).
  split; [exact H1|]. split; [exact H2|].
  destruct (setSimLevel_negative_level (-1) newNerveData H1 H2) as (H & _).
  rewrite H. reflexivity.
Defined.

(** *** The targets a ladder selection installs *)

Lemma wf_target_lookup (s : NerveData) (d : string) :
  wf s -> d ∈ domainNames ->
  exists l, targetDomains s !! d = Some l /\ (l < length (heap s))%nat.
Proof.
  intros (Hk & _ & Hw) Hd. rewrite <- Hk in Hd.
  apply list_elem_of_fmap_1 in Hd as ([d' l0] & -> & Hin).
  destruct (Hw d' l0 Hin) as (_ & l' & Hl' & Hlt & _). exists l'. split; assumption.
Qed.

Lemma domainNames_not_proto (d : string) :
  d ∈ domainNames -> String.eqb d "__proto__" = false.
Proof.
  intros Hd. destruct (String.eqb_spec d "__proto__") as [->|]; [|reflexivity].
  exfalso. revert Hd. apply (bool_decide_unpack _). reflexivity.
Qed.

Lemma setTargetDomain_targetScore_eq (d : string) (x : R) (s : NerveData) :
  String.eqb d "__proto__" = false -> targetScore (setTargetDomain d x s) d = Some x.
Proof.
  intros Hp. destruct (setTargetDomain_store d x s) as (Hh & _ & Ht).
  rewrite Hp in Ht. unfold targetScore. rewrite Ht, Hh, lookup_insert_eq.
  cbn [mbind option_bind]. apply list_lookup_middle. reflexivity.
Qed.

Lemma setTargetDomain_targetScore_ne (d d' : string) (x : R) (s : NerveData) :
  wf s -> d' ∈ domainNames -> d' <> d ->
  targetScore (setTargetDomain d x s) d' = targetScore s d'.
Proof.
  intros Hwf Hd' Hne. destruct (setTargetDomain_store d x s) as (Hh & _ & Ht).
  destruct (wf_target_lookup s d' Hwf Hd') as (l & Hl & Hlt).
  unfold targetScore. rewrite Ht, Hh.
  assert (Hlook : (if String.eqb d "__proto__" then targetDomains s
                   else <[d:=length (heap s)]> (targetDomains s)) !! d' = Some l).
  { destruct (String.eqb d "__proto__"); [exact Hl|].
    rewrite lookup_insert_ne by congruence. exact Hl. }
  rewrite Hlook, Hl. cbn [mbind option_bind]. apply lookup_app_l. exact Hlt.
Qed.

Lemma foldl_applyPreset_keeps (es : list (string * R)) (s : NerveData) (d : string) :
  wf s -> d ∈ domainNames -> d ∉ es.*1 ->
  targetScore (foldl applyPreset s es) d = targetScore s d.
Proof.
  revert s. induction es as [|[d0 x0] es IH]; intros s Hwf Hd Hnin; [reflexivity|].
  rewrite fmap_cons' in Hnin. apply not_elem_of_cons in Hnin as [Hne Hnin]. simpl in Hne.
  change (foldl applyPreset s ((d0, x0) :: es))
    with (foldl applyPreset (applyPreset s (d0, x0)) es).
  rewrite IH; [| |exact Hd|exact Hnin].
  - unfold applyPreset. destruct (bool_decide _); [|reflexivity].
    apply setTargetDomain_targetScore_ne; assumption.
  - apply (applyPreset_inv wf); [apply wf_setTargetDomain|exact Hwf].
Qed.

Lemma foldl_applyPreset_sets (es : list (string * R)) (s : NerveData) (d : string) (x : R) :
  wf s -> NoDup es.*1 -> (forall d', d' ∈ es.*1 -> d' ∈ domainNames) ->
  (d, x) ∈ es ->
  targetScore (foldl applyPreset s es) d = Some x.
Proof.
  revert s. induction es as [|[d0 x0] es IH]; intros s Hwf Hnd Hsub Hin; [inversion Hin|].
  rewrite fmap_cons' in Hnd. apply NoDup_cons in Hnd as [Hd0 Hnd]. simpl in Hd0.
  assert (Hwf1 : wf (applyPreset s (d0, x0)))
    by (apply (applyPreset_inv wf); [apply wf_setTargetDomain|exact Hwf]).
  change (foldl applyPreset s ((d0, x0) :: es))
    with (foldl applyPreset (applyPreset s (d0, x0)) es).
  apply elem_of_cons in Hin as [[= -> ->]|Hin].
  - assert (Hdn : d0 ∈ domainNames) by (apply Hsub; rewrite fmap_cons'; apply list_elem_of_here).
    rewrite foldl_applyPreset_keeps by assumption.
    unfold applyPreset.
    destruct (wf_target_lookup s d0 Hwf Hdn) as (l & Hl & _).
    rewrite bool_decide_eq_true_2 by (rewrite Hl; eexists; reflexivity).
    apply setTargetDomain_targetScore_eq, domainNames_not_proto, Hdn.
  - apply IH; try assumption.
    intros d' Hd'. apply Hsub. rewrite fmap_cons'. apply list_elem_of_further, Hd'.
Qed.

(** X3: A ladder selection with a level that is not negative installs the
    whole preset [level mod 8] as the target of a well-formed session:
    the target edge score, the regime, the fragility and the target
    score of each of the five domains are the preset's; the call
    completes, and what is displayed is untouched. *)
Theorem setSimLevel_installs_preset (level : Z) (s : NerveData) :
  wf s -> (0 <= level)%Z ->
  exists sim,
    simLevels !! Z.to_nat (level mod 8) = Some sim
    /\ (setSimLevel level s).2 = true
    /\ simLevel (setSimLevel level s).1 = (level mod 8)%Z
    /\ targetEdge (setSimLevel level s).1 = edge sim
    /\ regime (setSimLevel level s).1 = JStr (sim_regime sim)
    /\ fragility (setSimLevel level s).1 = JNum (sim_fragility sim)
    /\ (forall d x, (d, x) ∈ sim_domains sim ->
          targetScore (setSimLevel level s).1 d = Some x)
    /\ (forall d, d ∈ domainNames ->
          exists x, (d, x) ∈ sim_domains sim)
    /\ edgeScore (setSimLevel level s).1 = edgeScore s
    /\ (forall d, domainScore (setSimLevel level s).1 d = domainScore s d).
Proof.
  intros Hwf Hl.
  assert (Hrem : Z.rem level 8 = (level mod 8)%Z) by (apply Z.rem_mod_nonneg; lia).
  assert (Hrange : (0 <= level mod 8 < 8)%Z) by (apply Z.mod_pos_bound; lia).
  destruct (simLevelAt_range (level mod 8) Hrange) as (sim & Hsim & Hkeys).
  exists sim.
  assert (Hidx : simLevels !! Z.to_nat (level mod 8) = Some sim).
  { unfold simLevelAt in Hsim. destruct (Z.ltb_spec (level mod 8) 0); [lia|exact Hsim]. }
  rewrite <- Hrem in Hsim.
  destruct (setSimLevel_assigns level s sim Hsim) as (He & Hr & Hf & _ & _ & Hlv).
  split; [exact Hidx|]. split; [apply setSimLevel_completes; lia|].
  split; [rewrite Hlv; exact Hrem|]. split; [exact He|]. split; [exact Hr|].
  split; [exact Hf|]. split; [|split; [|split]].
  - intros d x Hin. rewrite setSimLevel_unfold. cbv zeta. rewrite Hsim. cbn [fst].
    apply foldl_applyPreset_sets; [wf_same Hwf| | |exact Hin].
    + rewrite Hkeys. apply domainNames_NoDup.
    + intros d'. rewrite Hkeys. trivial.
  - intros d Hd. rewrite <- Hkeys in Hd.
    apply list_elem_of_fmap_1 in Hd as ([d' x] & -> & Hin). exists x. exact Hin.
  - apply displayKept_setSimLevel.
  - intros d. apply displayKept_domainScore; [exact Hwf|apply displayKept_setSimLevel].
Qed.

Lemma setSimLevel_installs_preset_witness :
  wf newNerveData /\ (0 <= 10)%Z
  /\ targetScore (setSimLevel 10 newNerveData).1 "Climate" = Some 0.15.
Proof.
  assert (H : (0 <= 10)%Z) by lia.
  split; [apply wf_newNerveData|]. split; [exact H|].
  destruct (setSimLevel_installs_preset 10 newNerveData wf_newNerveData H)
    as (sim & Hsim & _ & _ & _ & _ & _ & Hd & _).
  injection Hsim as <-. apply Hd. simpl.
  apply list_elem_of_further, list_elem_of_here.
Defined.

End Ladder.

Section FetchOutcome.

Import Nerve.

Lemma validated_payload (r : FetchResult) (data : JsVal) :
  validated r = Some data ->
  exists x rg, getField data "edge_score" = Some (JNum x)
               /\ getField data "regime" = Some rg /\ truthy rg = true.
Proof.
  unfold validated. destruct r as [name|ok ct body]; [discriminate|].
  destruct (negb ok); [discriminate|].
  destruct (negb (isJsonContentType ct)); [discriminate|].
  destruct body as [data'|]; [|discriminate].
  destruct (getField data' "edge_score") as [e|] eqn:He; [|discriminate].
  destruct (getField data' "regime") as [rg|] eqn:Hr; [|discriminate].
  destruct e; simpl; try discriminate.
  destruct (truthy rg) eqn:Ht; simpl; [|discriminate].
  intros [= <-]. eauto.
Qed.

Lemma applyLive_mode (data : JsVal) (s : NerveData) :
  simMode (applyLive data s).1 = simMode s
  /\ apiAvailable (applyLive data s).1 = apiAvailable s
  /\ lastFetch (applyLive data s).1 = lastFetch s
  /\ simLevel (applyLive data s).1 = simLevel s.
Proof.
  apply (applyLive_inv (fun s' => simMode s' = simMode s
    /\ apiAvailable s' = apiAvailable s /\ lastFetch s' = lastFetch s
    /\ simLevel s' = simLevel s)).
  - intros d x s' H. unfold setTargetDomain. destruct (String.eqb d "__proto__"); exact H.
  - intros e f m r u H. exact H.
  - repeat split.
Qed.

(** X4: [fetchLive] has two outcomes and never throws: either it resolves
    to [null], clears [apiAvailable] and leaves the session in
    SIMULATED mode, or it resolves to the payload that passed its
    checks, sets [apiAvailable] and keeps the mode it found.  So
    [apiAvailable] is true after a fetch exactly when it returned
    data. *)
Theorem fetchLive_outcome (r : FetchResult) (s : NerveData) :
  ((fetchLive r s).2 = None
   /\ apiAvailable (fetchLive r s).1 = false
   /\ simMode (fetchLive r s).1 = true)
  \/ (exists data, validated r = Some data
        /\ (fetchLive r s).2 = Some data
        /\ apiAvailable (fetchLive r s).1 = true
        /\ simMode (fetchLive r s).1 = simMode s).
Proof.
  destruct (fetchFailed_fields s) as (_ & _ & _ & _ & _ & Hfa & Hfm).
  unfold fetchLive. destruct (validated r) as [data|] eqn:Hv.
  - destruct (simMode s) eqn:Hm; cbn [negb].
    + right. exists data. repeat split. exact Hm.
    + destruct (applyLive_mode data s) as (Hsm & _).
      destruct (applyLive data s) as [s' [|]]; cbn [fst snd] in *.
      * right. exists data. repeat split. cbn. rewrite Hsm. exact Hm.
      * left. destruct (fetchFailed_fields s') as (_ & _ & _ & _ & _ & Ha' & Hm').
        repeat split; assumption.
  - left. repeat split; assumption.
Qed.

(** X5: While the session is in SIMULATED mode a successful fetch is
    only noted: [fetchLive] sets [apiAvailable] and changes nothing
    else, and the constructor's probe then switches to LIVE mode with
    the targets, the regime and the fragility it was constructed
    with.  The payload itself is discarded. *)
Theorem fetchLive_in_simMode (r : FetchResult) (data : JsVal) (s : NerveData) :
  simMode s = true -> validated r = Some data ->
  fetchLive r s = (with_apiAvailable true s, Some data)
  /\ tryInitialFetch r s = with_simMode false (with_apiAvailable true s)
  /\ targetEdge (tryInitialFetch r s) = targetEdge s
  /\ targetDomains (tryInitialFetch r s) = targetDomains s
  /\ regime (tryInitialFetch r s) = regime s
  /\ heap (tryInitialFetch r s) = heap s.
Proof.
  intros Hm Hv.
  assert (Hf : fetchLive r s = (with_apiAvailable true s, Some data)).
  { unfold fetchLive. rewrite Hv, Hm. reflexivity. }
  assert (Ht : tryInitialFetch r s = with_simMode false (with_apiAvailable true s)).
  { unfold tryInitialFetch. rewrite Hf.
    destruct (validated_payload r data Hv) as (x & rg & He & _). rewrite He. reflexivity. }
  split; [exact Hf|]. split; [exact Ht|]. rewrite Ht. repeat split.
Qed.

Lemma fetchLive_in_simMode_witness :
  simMode newNerveData = true
  /\ validated (jsonResponse examplePayload) = Some examplePayload
  /\ targetEdge (tryInitialFetch (jsonResponse examplePayload) newNerveData) = 0.1.
Proof.
  split; [reflexivity|]. split; [reflexivity|].
  destruct (fetchLive_in_simMode (jsonResponse examplePayload) examplePayload newNerveData
              eq_refl eq_refl) as (_ & _ & H & _).
  exact H.
Defined.

(** *** The mode toggle, twice *)

(** X6: Two presses of the toggle give back the state they started from;
    when the source is available exactly one of the two presses starts
    a fetch, the one that turns LIVE mode on. *)
Theorem toggleSimMode_twice (s : NerveData) :
  (toggleSimMode (toggleSimMode s).1).1 = s
  /\ (apiAvailable s = true ->
        ((toggleSimMode s).2 = simMode s
         /\ (toggleSimMode (toggleSimMode s).1).2 = negb (simMode s)))
  /\ (apiAvailable s = false ->
        (toggleSimMode s).2 = false /\ (toggleSimMode (toggleSimMode s).1).2 = false).
Proof.
  destruct s as [h e f m rg ds lu sm api lv te td lf].
  unfold toggleSimMode. simpl.
  destruct api, sm; simpl; repeat split; intros; discriminate.
Qed.

(** *** The session is never LIVE without a source *)

(** After a fetch has settled the session is in SIMULATED mode or
    the source is known to be available. *)
Lemma fetchLive_sim_or_available (r : FetchResult) (s : NerveData) :
  simMode (fetchLive r s).1 = true \/ apiAvailable (fetchLive r s).1 = true.
Proof.
  destruct (fetchFailed_fields s) as (_ & _ & _ & _ & _ & _ & Hfm).
  unfold fetchLive. destruct (validated r) as [data|]; [|left; exact Hfm].
  destruct (simMode s); cbn [negb]; [right; reflexivity|].
  destruct (applyLive data s) as [s' [|]]; cbn [fst snd]; [right; reflexivity|].
  left. destruct (fetchFailed_fields s') as (_ & _ & _ & _ & _ & _ & Hm'). exact Hm'.
Qed.

Lemma step_live_implies_api (e : Event) (s : NerveData) :
  (simMode s = false -> apiAvailable s = true) ->
  simMode (step e s) = false -> apiAvailable (step e s) = true.
Proof.
  intros Hinv. destruct e as [now|r|r| | |level]; simpl step.
  - destruct (update_fields now s) as (_ & _ & _ & _ & Hsm & Hap & _).
    rewrite Hsm, Hap. exact Hinv.
  - destruct (fetchLive_sim_or_available r s) as [Hm|Ha].
    + rewrite Hm. discriminate.
    + intros _. exact Ha.
  - destruct (tryInitialFetch_cases r s) as [-> | ->].
    + destruct (fetchLive_sim_or_available r s) as [Hm|Ha].
      * rewrite Hm. discriminate.
      * intros _. exact Ha.
    + reflexivity.
  - destruct (setSimLevel_mode (simLevel (with_simMode true s) + 1) (with_simMode true s))
      as [H1 _].
    unfold nextSimLevel. rewrite H1. discriminate.
  - unfold toggleSimMode. destruct (apiAvailable s) eqn:Ha.
    + cbv zeta. destruct (negb (simMode (with_simMode _ _))); simpl; intros _; exact Ha.
    + cbn [fst]. rewrite Ha. exact Hinv.
  - destruct (setSimLevel_mode level s) as [H1 _]. rewrite H1. discriminate.
Qed.

(** X7: Whatever happens to a session after its construction (frames,
    settled fetches, mouse presses, toggles, ladder selections), it is
    in LIVE mode only while [apiAvailable] is true, and its store stays
    well formed. *)
Theorem live_mode_needs_source (es : list Event) :
  (simMode (run es newNerveData) = false -> apiAvailable (run es newNerveData) = true)
  /\ wf (run es newNerveData).
Proof.
  split; [|apply wf_run, wf_newNerveData].
  assert (H : forall s, (simMode s = false -> apiAvailable s = true) ->
                simMode (run es s) = false -> apiAvailable (run es s) = true).
  { induction es as [|e es IH]; intros s Hs; [exact Hs|].
    change (run (e :: es) s) with (run es (step e s)).
    apply IH, step_live_implies_api, Hs. }
  apply H. discriminate.
Qed.

(** *** The ladder level along a session *)

Lemma step_simLevel (e : Event) (s : NerveData) :
  (0 <= simLevel s < 8)%Z ->
  match e with SetSimLevel level => (0 <= level)%Z | _ => True end ->
  (0 <= simLevel (step e s) < 8)%Z.
Proof.
  intros Hs He. destruct e as [now|r|r| | |level]; simpl step.
  - destruct (update_smoothIn now s) as [-> | ->]; exact Hs.
  - apply (fetchLive_inv (fun s' => (0 <= simLevel s' < 8)%Z)); try (intros; assumption).
    intros d x s' H. unfold setTargetDomain. destruct (String.eqb d "__proto__"); exact H.
  - assert (H : (0 <= simLevel (fetchLive r s).1 < 8)%Z).
    { apply (fetchLive_inv (fun s' => (0 <= simLevel s' < 8)%Z)); try (intros; assumption).
      intros d x s' H. unfold setTargetDomain. destruct (String.eqb d "__proto__"); exact H. }
    destruct (tryInitialFetch_cases r s) as [-> | ->]; exact H.
  - unfold nextSimLevel. rewrite setSimLevel_simLevel.
    change (simLevel (with_simMode true s)) with (simLevel s).
    apply Z.rem_bound_pos; lia.
  - destruct (toggleSimMode_cases s) as [-> | ->]; exact Hs.
  - rewrite setSimLevel_simLevel. apply Z.rem_bound_pos; lia.
Qed.

(** X8: Along every session in which no direct ladder selection asks for
    a negative level, the ladder level stays an index of the ladder,
    so the next mouse press finds its preset and completes without a
    [TypeError]. *)
Theorem simLevel_in_range (es : list Event) :
  ladderLevelsNonneg es ->
  (0 <= simLevel (run es newNerveData) < 8)%Z
  /\ (nextSimLevel (with_simMode true (run es newNerveData))).2 = true.
Proof.
  intros Hes.
  assert (H : forall s, (0 <= simLevel s < 8)%Z -> (0 <= simLevel (run es s) < 8)%Z).
  { induction es as [|e es IH]; intros s Hs; [exact Hs|].
    change (run (e :: es) s) with (run es (step e s)).
    apply IH.
    - intros level Hin. apply Hes. apply list_elem_of_further, Hin.
    - apply step_simLevel; [exact Hs|].
      destruct e; try exact I. apply Hes. apply list_elem_of_here. }
  assert (Hr : (0 <= simLevel (run es newNerveData) < 8)%Z) by (apply H; simpl; lia).
  split; [exact Hr|].
  apply (nextSimLevel_cycle_aux (with_simMode true (run es newNerveData))). exact Hr.
Qed.

Lemma simLevel_in_range_witness :
  ladderLevelsNonneg [MousePressed; SetSimLevel 13; KeyPressedSpace]
  /\ (0 <= simLevel (run [MousePressed; SetSimLevel 13; KeyPressedSpace] newNerveData) < 8)%Z.
Proof.
  assert (H : ladderLevelsNonneg [MousePressed; SetSimLevel 13; KeyPressedSpace]).
  { intros level Hin.
    repeat (apply elem_of_cons in Hin as [Heq|Hin]; [try discriminate Heq|]).
    - injection Heq as ->. lia.
    - inversion Hin. }
  split; [exact H|].
  apply (simLevel_in_range [MousePressed; SetSimLevel 13; KeyPressedSpace] H).
Defined.

End FetchOutcome.

Section Polling.

Import Nerve.

Lemma update_poll (now : R) (s : NerveData) :
  ((update now s).2 = true
   /\ simMode s = false /\ now - lastFetch s > fetchInterval
   /\ lastFetch (update now s).1 = now)
  \/ ((update now s).2 = false
      /\ (simMode s = true \/ now - lastFetch s <= fetchInterval)
      /\ lastFetch (update now s).1 = lastFetch s).
Proof.
  unfold update. cbv zeta.
  change (simMode (smoothIn (domains s) s)) with (simMode s).
  change (lastFetch (smoothIn (domains s) s)) with (lastFetch s).
  destruct (simMode s); cbn [negb].
  - right. repeat split. left. reflexivity.
  - destruct (Rgt_dec (now - lastFetch s) fetchInterval) as [Hgt|Hle].
    + left. repeat split. exact Hgt.
    + right. repeat split. right. lra.
Qed.

Lemma step_lastFetch (e : Event) (s : NerveData) :
  (forall now, e <> Tick now) -> lastFetch (step e s) = lastFetch s.
Proof.
  intros Hne.
  assert (Hset : forall d x s', lastFetch (setTargetDomain d x s') = lastFetch s').
  { intros d x s'. unfold setTargetDomain. destruct (String.eqb d "__proto__"); reflexivity. }
  assert (Hfetch : forall r, lastFetch (fetchLive r s).1 = lastFetch s).
  { intros r. apply (fetchLive_inv (fun s' => lastFetch s' = lastFetch s));
      try (intros; assumption); try reflexivity.
    intros d x s' H. rewrite Hset. exact H. }
  assert (Hsim : forall level s', lastFetch (setSimLevel level s').1 = lastFetch s').
  { intros level s'. rewrite setSimLevel_unfold. cbv zeta.
    destruct (simLevelAt _) as [sim|]; cbn [fst]; [|reflexivity].
    apply (foldl_applyPreset_inv (fun s'' => lastFetch s'' = lastFetch s')); [|reflexivity].
    intros d x s'' H. rewrite Hset. exact H. }
  destruct e as [now|r|r| | |level]; simpl step.
  - exfalso. apply (Hne now). reflexivity.
  - apply Hfetch.
  - destruct (tryInitialFetch_cases r s) as [-> | ->]; apply Hfetch.
  - unfold nextSimLevel. rewrite Hsim. reflexivity.
  - destruct (toggleSimMode_cases s) as [-> | ->]; reflexivity.
  - apply Hsim.
Qed.

(** X9: The poll guard of [update]: a call starts a poll only in LIVE mode
    and only when more than [fetchInterval = 60000] ms have passed
    since the last one, and it then records the time.  So along any
    run in which every frame is drawn within 60 s of the last recorded
    poll, [update] starts no poll and the recorded time stays, whatever
    else happens in between. *)
Theorem update_poll_throttle (es : list Event) (s : NerveData) :
  (forall now, Tick now ∈ es -> now - lastFetch s <= fetchInterval) ->
  pollsStarted es s = 0%nat
  /\ lastFetch (run es s) = lastFetch s
  /\ fetchInterval = 60000
  /\ (forall now, (update now s).2 = true ->
        simMode s = false /\ now - lastFetch s > fetchInterval
        /\ lastFetch (update now s).1 = now)
  /\ (forall now, simMode s = true -> (update now s).2 = false).
Proof.
  intros Hes.
  assert (Hrun : pollsStarted es s = 0%nat /\ lastFetch (run es s) = lastFetch s).
  { revert s Hes. induction es as [|e es IH]; intros s Hes; [split; reflexivity|].
    assert (Hstep : match e with
                    | Tick now => (if (update now s).2 then 1 else 0)%nat
                    | _ => 0%nat
                    end = 0%nat /\ lastFetch (step e s) = lastFetch s).
    { destruct e as [now|r|r| | |level];
        try (split; [reflexivity|apply step_lastFetch; intros now'; discriminate]).
      simpl step.
      destruct (update_poll now s) as [(_ & _ & Hgt & _)|(Hf & _ & Hl)].
      - exfalso. pose proof (Hes now (list_elem_of_here _ _)). lra.
      - rewrite Hf. split; [reflexivity|exact Hl]. }
    destruct Hstep as [H0 Hl].
    destruct (IH (step e s)) as [IH1 IH2].
    { intros now Hin. rewrite Hl. apply Hes. apply list_elem_of_further, Hin. }
    change (run (e :: es) s) with (run es (step e s)).
    split; [|rewrite IH2; exact Hl].
    change (pollsStarted (e :: es) s)
      with (match e with
            | Tick now => if (update now s).2 then 1 else 0
            | _ => 0
            end + pollsStarted es (step e s))%nat.
    rewrite H0, IH1. reflexivity. }
  destruct Hrun as [H1 H2].
  split; [exact H1|]. split; [exact H2|]. split; [reflexivity|]. split.
  - intros now Hstart.
    destruct (update_poll now s) as [(_ & Hm & Hgt & Hl)|(Hf & _)]; [|congruence].
    repeat split; assumption.
  - intros now Hm.
    destruct (update_poll now s) as [(_ & Hm' & _)|(Hf & _)]; [congruence|exact Hf].
Qed.

Lemma update_poll_throttle_witness :
  (forall now, Tick now ∈ [Tick 16; KeyPressedSpace; Tick 59000] ->
     now - lastFetch liveSession <= fetchInterval)
  /\ pollsStarted [Tick 16; KeyPressedSpace; Tick 59000] liveSession = 0%nat.
Proof.
  assert (H : forall now, Tick now ∈ [Tick 16; KeyPressedSpace; Tick 59000] ->
                now - lastFetch liveSession <= fetchInterval).
  { intros now Hin. change (lastFetch liveSession) with 0. unfold fetchInterval.
    repeat (apply elem_of_cons in Hin as [Heq|Hin]; [try discriminate Heq|]).
    - injection Heq as ->. lra.
    - injection Heq as ->. lra.
    - inversion Hin. }
  split; [exact H|].
  apply (update_poll_throttle [Tick 16; KeyPressedSpace; Tick 59000] liveSession H).
Defined.

(** *** Smoothing never overshoots *)





End Polling.

Section LiveDomains.

Import Nerve.
Local Open Scope string_scope.

Lemma lookupOwn_notin {A} (d : string) (es : list (string * A)) :
  d ∉ es.*1 -> lookupOwn d es = None.
Proof.
  induction es as [|[d0 v0] es IH]; intros Hn; [reflexivity|].
  rewrite fmap_cons' in Hn. apply not_elem_of_cons in Hn as [Hne Hn]. simpl in *.
  destruct (String.eqb_spec d d0) as [->|_]; [contradiction|]. apply IH, Hn.
Qed.

Lemma wf_domainsHas (s : NerveData) (d : string) :
  wf s -> d ∈ domainNames -> domainsHas s d = true.
Proof.
  intros (Hk & _) Hd. unfold domainsHas. rewrite Hk.
  rewrite (bool_decide_eq_true_2 _ Hd). reflexivity.
Qed.

(** The loop over the entries, for the five domains: an entry with a
    numeric score replaces the target, any other entry leaves it. *)
Lemma applyDomainScores_targets (es : list (string * JsVal)) (s : NerveData) :
  wf s -> NoDup es.*1 -> (forall d v, (d, v) ∈ es -> v <> JNull /\ v <> JUndefined) ->
  (applyDomainScores es s).2 = true
  /\ forall d, d ∈ domainNames ->
       targetScore (applyDomainScores es s).1 d
       = match lookupOwn d es ≫= entryScore with
         | Some x => Some x
         | None => targetScore s d
         end.
Proof.
  revert s. induction es as [|[d0 v0] es IH]; intros s Hwf Hnd Hnn.
  - split; [reflexivity|]. intros d Hd. reflexivity.
  - rewrite fmap_cons' in Hnd. apply NoDup_cons in Hnd as [Hd0 Hnd]. simpl in Hd0.
    assert (Hnn' : forall d v, (d, v) ∈ es -> v <> JNull /\ v <> JUndefined).
    { intros d v Hin. apply (Hnn d v). apply list_elem_of_further, Hin. }
    destruct (Hnn d0 v0 (list_elem_of_here _ _)) as [Hv1 Hv2].
    assert (Hsc : exists w, getField v0 "score" = Some w).
    { destruct v0; try (eexists; reflexivity); contradiction. }
    destruct Hsc as [w Hw].
    (* the state after this entry, and what it did to the targets *)
    assert (Hstep : exists s1, applyDomainScores ((d0, v0) :: es) s = applyDomainScores es s1
              /\ wf s1
              /\ forall d, d ∈ domainNames ->
                   targetScore s1 d
                   = if String.eqb d d0
                     then match entryScore v0 with Some x => Some x | None => targetScore s d end
                     else targetScore s d).
    { cbn [applyDomainScores]. rewrite Hw. unfold entryScore. rewrite Hw.
      destruct (domainsHas s d0) eqn:Hhas.
      - destruct w; try (exists s; split; [reflexivity|]; split; [exact Hwf|];
                         intros d Hd; destruct (String.eqb d d0); reflexivity).
        exists (setTargetDomain d0 x s). split; [reflexivity|].
        split; [apply wf_setTargetDomain, Hwf|].
        intros d Hd. destruct (String.eqb_spec d d0) as [->|Hne].
        + apply setTargetDomain_targetScore_eq, domainNames_not_proto, Hd.
        + apply setTargetDomain_targetScore_ne; assumption.
      - exists s. split; [reflexivity|]. split; [exact Hwf|].
        intros d Hd. destruct (String.eqb_spec d d0) as [->|Hne]; [|reflexivity].
        rewrite (wf_domainsHas s d0 Hwf Hd) in Hhas. discriminate. }
    destruct Hstep as (s1 & -> & Hwf1 & Ht1).
    destruct (IH s1 Hwf1 Hnd Hnn') as [IH1 IH2].
    split; [exact IH1|]. intros d Hd. rewrite (IH2 d Hd), (Ht1 d Hd).
    cbn [lookupOwn].
    destruct (String.eqb_spec d d0) as [->|Hne].
    + rewrite (lookupOwn_notin d0 es Hd0). cbn [mbind option_bind].
      destruct (entryScore v0); reflexivity.
    + reflexivity.
Qed.

(** X11: A successful poll in LIVE mode, for any payload whose
    [domain_scores] is an object without [null] entries: the fetch
    returns the payload, the mode stays LIVE, the target edge score is
    the payload's, and for each of the five domains the target score
    becomes the numeric [score] of its entry when there is one and is
    left as it was otherwise (no entry for the domain, or an entry
    whose [score] is missing or not a number).  What is displayed does
    not move. *)
Theorem fetchLive_applies_domain_scores (r : FetchResult) (data : JsVal)
    (entries : list (string * JsVal)) (s : NerveData) :
  wf s -> simMode s = false -> validated r = Some data ->
  getField data "domain_scores" = Some (JObj entries) ->
  NoDup entries.*1 ->
  (forall d v, (d, v) ∈ entries -> v <> JNull /\ v <> JUndefined) ->
  (fetchLive r s).2 = Some data
  /\ simMode (fetchLive r s).1 = false
  /\ apiAvailable (fetchLive r s).1 = true
  /\ getField data "edge_score" = Some (JNum (targetEdge (fetchLive r s).1))
  /\ (forall d, d ∈ domainNames ->
        targetScore (fetchLive r s).1 d
        = match lookupOwn d entries ≫= entryScore with
          | Some x => Some x
          | None => targetScore s d
          end)
  /\ edgeScore (fetchLive r s).1 = edgeScore s
  /\ (forall d, domainScore (fetchLive r s).1 d = domainScore s d).
Proof.
  intros Hwf Hm Hv Hds Hnd Hnn.
  destruct (validated_payload r data Hv) as (x & rg & He & Hr & _).
  set (s0 := with_lastUpdate (default JUndefined (getField data "timestamp"))
               (with_regime (default JUndefined (getField data "regime"))
                  (with_momentum (orElse (default JUndefined (getField data "momentum")) (JNum 0))
                     (with_fragility
                        (orElse (default JUndefined (getField data "fragility_ratio")) (JNum 0))
                        (with_targetEdge x s))))).
  assert (Hwf0 : wf s0) by (wf_same Hwf).
  assert (Happly : applyLive data s = applyDomainScores entries s0).
  { unfold applyLive. cbv zeta. rewrite Hds, He. reflexivity. }
  destruct (applyDomainScores_targets entries s0 Hwf0 Hnd Hnn) as [Hflag Htargets].
  assert (Hctl : targetEdge (applyDomainScores entries s0).1 = x
                 /\ simMode (applyDomainScores entries s0).1 = false).
  { apply (applyDomainScores_inv (fun s' => targetEdge s' = x /\ simMode s' = false)).
    - intros d y s' H. unfold setTargetDomain. destruct (String.eqb d "__proto__"); exact H.
    - split; [reflexivity|exact Hm]. }
  destruct Hctl as [Hte Hsm].
  assert (Hf : fetchLive r s
               = (with_apiAvailable true (applyDomainScores entries s0).1, Some data)).
  { unfold fetchLive. rewrite Hv, Hm. cbn [negb]. rewrite Happly.
    destruct (applyDomainScores entries s0) as [s' flag]. cbn [snd] in Hflag. subst flag.
    reflexivity. }
  pose proof (displayKept_fetchLive r s) as Hk.
  rewrite Hf in Hk |- *. cbn [fst snd] in Hk |- *.
  split; [reflexivity|]. split; [exact Hsm|]. split; [reflexivity|].
  split; [cbn; rewrite Hte; exact He|]. split; [|split].
  - intros d Hd. exact (Htargets d Hd).
  - apply Hk.
  - intros d. apply displayKept_domainScore; assumption.
Qed.

Lemma fetchLive_applies_domain_scores_witness :
  wf liveSession /\ simMode liveSession = false
  /\ targetScore (fetchLive (jsonResponse examplePayload) liveSession).1 "Markets" = Some 0.5
  /\ targetScore (fetchLive (jsonResponse examplePayload) liveSession).1 "Climate"
     = targetScore liveSession "Climate".
Proof.
  assert (Hwf : wf liveSession) by (apply wf_run, wf_newNerveData).
  assert (Hnd : NoDup [("Markets", JObj [("score", JNum 0.5)])].*1).
  { apply (bool_decide_unpack _). reflexivity. }
  assert (Hnn : forall d v, (d, v) ∈ [("Markets", JObj [("score", JNum 0.5)])] ->
                  v <> JNull /\ v <> JUndefined).
  { intros d v Hin. apply elem_of_cons in Hin as [[= -> ->]|Hin]; [|inversion Hin].
    split; discriminate. }
  split; [exact Hwf|]. split; [reflexivity|].
  destruct (fetchLive_applies_domain_scores (jsonResponse examplePayload) examplePayload
              [("Markets", JObj [("score", JNum 0.5)])] liveSession
              Hwf eq_refl eq_refl eq_refl Hnd Hnn) as (_ & _ & _ & _ & Ht & _).
  split.
  - apply (Ht "Markets"). apply (bool_decide_unpack _). reflexivity.
  - apply (Ht "Climate"). apply (bool_decide_unpack _). reflexivity.
Defined.

End LiveDomains.

(** ** The data module: what changes at once and what is smoothed *)

Section Reconciliation.

Import Nerve.
Local Open Scope string_scope.






End Reconciliation.

(** * Further properties of the sketches *)

(** ** The particle loop *)

Section ParticleLoop.

Import Particles.

Variable advance : Particle -> Particle.

Lemma spliceLoop_prefix (pre suf : list Particle) :
  spliceLoop advance (length pre) (pre ++ suf) = survivors advance pre ++ suf.
Proof.
  revert suf. induction pre as [|p pre IH] using rev_ind; intros suf; [reflexivity|].
  rewrite length_app. simpl length. rewrite Nat.add_1_r. cbn [spliceLoop].
  rewrite <- app_assoc. cbn [app].
  rewrite list_lookup_middle by reflexivity. cbv zeta.
  unfold survivors. rewrite fmap_app, filter_app. cbn [fmap list_fmap].
  destruct (Rle_dec (p_life (advance p)) 0) as [Hdead|Hlive].
  - rewrite delete_middle, IH.
    rewrite filter_cons_False by (unfold alive; lra).
    rewrite filter_nil, app_nil_r. reflexivity.
  - assert (Hins : <[length pre := advance p]> (pre ++ p :: suf) = pre ++ advance p :: suf).
    { rewrite insert_app_r_alt by lia. rewrite Nat.sub_diag. reflexivity. }
    rewrite Hins, IH.
    rewrite filter_cons_True by (unfold alive; lra).
    rewrite filter_nil, <- app_assoc. reflexivity.
Qed.

(** The backward splice loop is a filter. *)
Lemma spliceLoop_survivors (ps : list Particle) :
  spliceLoop advance (length ps) ps = survivors advance ps.
Proof.
  rewrite <- (app_nil_r ps) at 2. rewrite spliceLoop_prefix. apply app_nil_r.
Qed.

Lemma ageParticles_spec (cap : nat) (ps : list Particle) :
  ageParticles advance cap ps = drop (length (survivors advance ps) - cap) (survivors advance ps)
  /\ (length (ageParticles advance cap ps) <= cap)%nat
  /\ (length (ageParticles advance cap ps) <= length ps)%nat
  /\ (forall p, p ∈ ageParticles advance cap ps ->
        alive p /\ exists q, q ∈ ps /\ p = advance q)
  /\ ((length (survivors advance ps) <= cap)%nat -> ageParticles advance cap ps = survivors advance ps)
  /\ ageParticles advance cap ps `suffix_of` survivors advance ps.
Proof.
  assert (Heq : ageParticles advance cap ps
                = drop (length (survivors advance ps) - cap) (survivors advance ps)).
  { unfold ageParticles. cbv zeta. rewrite spliceLoop_survivors.
    destruct (Nat.ltb_spec cap (length (survivors advance ps))) as [Hgt|Hle]; [reflexivity|].
    replace (length (survivors advance ps) - cap)%nat with 0%nat by lia. reflexivity. }
  assert (Hlen : (length (survivors advance ps) <= length ps)%nat).
  { unfold survivors. etransitivity; [apply length_filter|]. rewrite length_fmap. reflexivity. }
  split; [exact Heq|]. rewrite Heq. split; [|split; [|split; [|split]]].
  - rewrite length_drop. lia.
  - rewrite length_drop. lia.
  - intros p Hp.
    assert (Hin : p ∈ survivors advance ps).
    { eapply elem_of_suffix; [exact Hp|]. apply suffix_drop. }
    unfold survivors in Hin. apply list_elem_of_filter in Hin as [Ha Hin].
    apply list_elem_of_fmap_1 in Hin as (q & -> & Hq).
    split; [exact Ha|]. exists q. split; [exact Hq|reflexivity].
  - intros Hle. replace (length (survivors advance ps) - cap)%nat with 0%nat by lia. reflexivity.
  - apply suffix_drop.
Qed.

End ParticleLoop.

Section ParticleSketches.

Import Particles.

(** X12: The clock's [updateParticles] keeps exactly the particles that
    still have life after their step, moved by their velocity and aged
    by their decay, in their order; of these it keeps the newest 600.
    So the array never holds more than 600 particles, never grows in
    this function, and holds no particle whose life is used up. *)
Theorem updateParticles_spec (particles : list Particle) :
  Clock.updateParticles particles
  = drop (length (survivors Clock.advance particles) - 600)
         (survivors Clock.advance particles)
  /\ (length (Clock.updateParticles particles) <= 600)%nat
  /\ (length (Clock.updateParticles particles) <= length particles)%nat
  /\ (forall p, p ∈ Clock.updateParticles particles ->
        0 < p_life p
        /\ exists q, q ∈ particles
             /\ p_x p = p_x q + p_vx q /\ p_y p = p_y q + p_vy q
             /\ p_life p = p_life q - p_decay q
             /\ p_vx p = p_vx q /\ p_vy p = p_vy q).
Proof.
  destruct (ageParticles_spec Clock.advance 600 particles) as (H1 & H2 & H3 & H4 & _).
  split; [exact H1|]. split; [exact H2|]. split; [exact H3|].
  intros p Hp. destruct (H4 p Hp) as (Ha & q & Hq & ->).
  split; [exact Ha|]. exists q. repeat split. exact Hq.
Qed.

(** X13: The orb particles of the fracture sketch: the same, with both
    velocity components damped by 0.99 after the move and a cap of
    500. *)
Theorem updateOrbParticles_spec (orbParticles : list Particle) :
  Fracture.updateOrbParticles orbParticles
  = drop (length (survivors Fracture.advance orbParticles) - 500)
         (survivors Fracture.advance orbParticles)
  /\ (length (Fracture.updateOrbParticles orbParticles) <= 500)%nat
  /\ (forall p, p ∈ Fracture.updateOrbParticles orbParticles ->
        0 < p_life p
        /\ exists q, q ∈ orbParticles
             /\ p_x p = p_x q + p_vx q /\ p_y p = p_y q + p_vy q
             /\ p_life p = p_life q - p_decay q
             /\ p_vx p = p_vx q * 0.99 /\ p_vy p = p_vy q * 0.99).
Proof.
  destruct (ageParticles_spec Fracture.advance 500 orbParticles) as (H1 & H2 & _ & H4 & _).
  split; [exact H1|]. split; [exact H2|].
  intros p Hp. destruct (H4 p Hp) as (Ha & q & Hq & ->).
  split; [exact Ha|]. exists q. repeat split. exact Hq.
Qed.

(** X14: The afterglow particles of the pulse sketch: the same, with the
    vertical velocity damped by 0.98 after the move and a cap of
    300. *)
Theorem drawAfterglowParticles_spec (afterglowParticles : list Particle) :
  Pulse.drawAfterglowParticles afterglowParticles
  = drop (length (survivors Pulse.advance afterglowParticles) - 300)
         (survivors Pulse.advance afterglowParticles)
  /\ (length (Pulse.drawAfterglowParticles afterglowParticles) <= 300)%nat
  /\ (forall p, p ∈ Pulse.drawAfterglowParticles afterglowParticles ->
        0 < p_life p
        /\ exists q, q ∈ afterglowParticles
             /\ p_x p = p_x q + p_vx q /\ p_y p = p_y q + p_vy q
             /\ p_life p = p_life q - p_decay q
             /\ p_vx p = p_vx q /\ p_vy p = p_vy q * 0.98).
Proof.
  destruct (ageParticles_spec Pulse.advance 300 afterglowParticles) as (H1 & H2 & _ & H4 & _).
  split; [exact H1|]. split; [exact H2|].
  intros p Hp. destruct (H4 p Hp) as (Ha & q & Hq & ->).
  split; [exact Ha|]. exists q. repeat split. exact Hq.
Qed.

End ParticleSketches.

(** ** The clock sketch: angles *)

Section ClockAngles.

Import Clock.

(** Two values of [[-PI, PI)] that differ by whole turns are equal. *)
Lemma turn_unique (u v : R) (k : Z) :
  - PI <= u < PI -> - PI <= v < PI -> u = v + TWO_PI * IZR k -> u = v.
Proof.
  intros Hu Hv Huv. pose proof PI_RGT_0 as Hpi. unfold TWO_PI in Huv.
  assert (H1 : IZR k < 1).
  { apply Rmult_lt_reg_l with (r := 2 * PI); [lra|]. lra. }
  assert (H2 : -1 < IZR k).
  { apply Rmult_lt_reg_l with (r := 2 * PI); [lra|]. lra. }
  apply lt_IZR in H1. apply lt_IZR in H2.
  assert (k = 0%Z) by lia. subst k. lra.
Qed.

Lemma angleDifference_unique (a b v : R) (k : Z) :
  - PI <= v < PI -> v = b - a + TWO_PI * IZR k -> angleDifference a b = v.
Proof.
  intros Hv Hk.
  destruct (angleDifference_congruent a b) as [j Hj].
  apply (turn_unique _ _ (j - k)); [apply angleDifference_range|exact Hv|].
  rewrite minus_IZR. lra.
Qed.

(** X15: [angleDifference] reads its arguments as directions: whole turns
    added to either angle do not change the result, the difference of
    an angle with itself is 0, and exchanging the two angles keeps the
    magnitude, which is what its callers use. *)
Theorem angleDifference_directions (a b : R) (m n : Z) :
  angleDifference (a + TWO_PI * IZR m) (b + TWO_PI * IZR n) = angleDifference a b
  /\ angleDifference a a = 0
  /\ Rabs (angleDifference b a) = Rabs (angleDifference a b).
Proof.
  pose proof PI_RGT_0 as Hpi.
  split; [|split].
  - destruct (angleDifference_congruent a b) as [j Hj].
    apply (angleDifference_unique _ _ _ (j - n + m)); [apply angleDifference_range|].
    rewrite Hj, plus_IZR, minus_IZR. lra.
  - apply (angleDifference_unique a a 0 0); lra.
  - destruct (angleDifference_congruent a b) as [j Hj].
    destruct (angleDifference_congruent b a) as [i Hi].
    pose proof (angleDifference_range a b) as Hab.
    pose proof (angleDifference_range b a) as Hba.
    assert (Hsum : angleDifference a b + angleDifference b a = TWO_PI * IZR (i + j)).
    { rewrite plus_IZR. lra. }
    unfold TWO_PI in Hsum.
    assert (H1 : IZR (i + j) < 1).
    { apply Rmult_lt_reg_l with (r := 2 * PI); [lra|]. lra. }
    assert (H2 : -2 < IZR (i + j)).
    { apply Rmult_lt_reg_l with (r := 2 * PI); [lra|]. lra. }
    apply lt_IZR in H1. apply lt_IZR in H2.
    assert (Hc : (i + j = 0 \/ i + j = -1)%Z) by lia.
    destruct Hc as [Hc|Hc]; rewrite Hc in Hsum.
    + replace (angleDifference b a) with (- angleDifference a b) by lra.
      apply Rabs_Ropp.
    + replace (angleDifference b a) with (angleDifference a b) by lra. reflexivity.
Qed.

(** X16: The danger glow of the midnight marker is always in [0, 1], and
    once the hand rests on the angle [draw] steers it to for an edge
    score in [0, 1], it is the square of the edge score: nothing at 6
    o'clock, full at 12. *)
Theorem proximity_at_target (edgeScore handAngle : R) :
  0 <= edgeScore <= 1 ->
  proximity (targetAngle edgeScore) = edgeScore ^ 2
  /\ 0 <= proximity handAngle <= 1.
Proof.
  intros He. pose proof PI_RGT_0 as Hpi.
  assert (Hrange : forall h, 0 <= 1 - Rabs (angleDifference h (- HALF_PI)) / PI <= 1).
  { intros h. pose proof (angleDifference_range h (- HALF_PI)) as Hr.
    assert (Ha : 0 <= Rabs (angleDifference h (- HALF_PI)) <= PI).
    { split; [apply Rabs_pos|apply Rabs_le; lra]. }
    assert (Hq : 0 <= Rabs (angleDifference h (- HALF_PI)) / PI <= 1).
    { split; [apply div_nonneg; lra|].
      apply Rmult_le_reg_r with (r := PI); [lra|].
      unfold Rdiv. rewrite Rmult_assoc, Rinv_l by lra. lra. }
    lra. }
  assert (Hcon : forall p, 0 <= p <= 1 -> constrain p 0 1 = p).
  { intros p Hp. unfold constrain. rewrite Rmin_left by lra. apply Rmax_left. lra. }
  split.
  - assert (Habs : Rabs (angleDifference (targetAngle edgeScore) (- HALF_PI))
                   = PI * (1 - edgeScore)).
    { unfold targetAngle, HALF_PI.
      destruct (Req_dec edgeScore 0) as [->|Hne].
      - rewrite (angleDifference_unique _ _ (- PI) 0) by (unfold TWO_PI; lra).
        rewrite Rabs_Ropp, Rabs_pos_eq by lra. lra.
      - rewrite (angleDifference_unique _ _ (PI * (1 - edgeScore)) 1)
          by (unfold TWO_PI; first [lra | split; nra]).
        apply Rabs_pos_eq. nra. }
    unfold proximity. cbv zeta. rewrite Habs.
    replace (1 - PI * (1 - edgeScore) / PI) with edgeScore by (field; lra).
    rewrite Hcon by exact He. reflexivity.
  - unfold proximity. cbv zeta. rewrite Hcon by apply Hrange.
    destruct (Hrange handAngle) as [H0 H1]. simpl. nra.
Qed.

Lemma proximity_at_target_witness :
  0 <= 0.5 <= 1 /\ proximity (targetAngle 0.5) = 0.5 ^ 2.
Proof.
  assert (H : 0 <= 0.5 <= 1) by lra.
  split; [exact H|]. apply (proximity_at_target 0.5 0 H).
Defined.

End ClockAngles.

(** ** The ocean sketch: currents and the grid *)

Section OceanGrid.

Import Ocean.

Lemma wrap_range (v extent : R) :
  0 < extent ->
  0 <= wrap v extent < extent /\ exists k : Z, wrap v extent = v + extent * IZR k.
Proof.
  intros He. unfold wrap.
  assert (H1 : - extent < fmod v extent < extent).
  { destruct (Rle_lt_dec 0 v) as [Hv|Hv].
    - pose proof (fmod_nonneg v extent He Hv). lra.
    - pose proof (fmod_neg v extent He Hv). lra. }
  split.
  - apply fmod_nonneg; lra.
  - destruct (fmod_congruent v extent) as [k Hk].
    destruct (fmod_congruent (fmod v extent + extent) extent) as [j Hj].
    exists (1 - k - j)%Z. rewrite Hj, Hk, !minus_IZR. lra.
Qed.

(** X17: The per-frame update of a domain current keeps it in the
    viewport: its position is wrapped into [0, width) x [0, height),
    displaced from the drifted position by whole widths and heights;
    its radius and rotation speed never change, its angle turns by the
    rotation speed, and its strength moves 2 % of the way to the
    domain's score (the gap to the score is multiplied by 0.98),
    staying inside any interval that holds both. *)
Theorem updateCurrent_in_viewport (width height phase : R) (i : nat) (score : R)
    (dc : DomainCurrent) :
  0 < width -> 0 < height ->
  0 <= cur_x (updateCurrent width height phase i score dc) < width
  /\ 0 <= cur_y (updateCurrent width height phase i score dc) < height
  /\ (exists k : Z, cur_x (updateCurrent width height phase i score dc)
        = cur_x dc + sin (phase + INR i) * 0.3 + width * IZR k)
  /\ (exists k : Z, cur_y (updateCurrent width height phase i score dc)
        = cur_y dc + cos (phase * 0.7 + INR i) * 0.2 + height * IZR k)
  /\ cur_radius (updateCurrent width height phase i score dc) = cur_radius dc
  /\ cur_rotSpeed (updateCurrent width height phase i score dc) = cur_rotSpeed dc
  /\ cur_angle (updateCurrent width height phase i score dc) = cur_angle dc + cur_rotSpeed dc
  /\ cur_strength (updateCurrent width height phase i score dc)
     = cur_strength dc + (score - cur_strength dc) * 0.02
  /\ score - cur_strength (updateCurrent width height phase i score dc)
     = 0.98 * (score - cur_strength dc)
  /\ (forall lo hi, lo <= cur_strength dc <= hi -> lo <= score <= hi ->
        lo <= cur_strength (updateCurrent width height phase i score dc) <= hi).
Proof.
  intros Hw Hh. unfold updateCurrent. cbv zeta. cbn.
  destruct (wrap_range (cur_x dc + sin (phase + INR i) * 0.3) width Hw) as [Hx Hxk].
  destruct (wrap_range (cur_y dc + cos (phase * 0.7 + INR i) * 0.2) height Hh) as [Hy Hyk].
  split; [exact Hx|]. split; [exact Hy|]. split; [exact Hxk|]. split; [exact Hyk|].
  repeat split; unfold lerp; lra.
Qed.

Lemma updateCurrent_in_viewport_witness :
  0 < 800 /\ 0 < 600
  /\ 0 <= cur_x (updateCurrent 800 600 0 0 0.5 (mkDomainCurrent 799.9 10 100 0 0 0.001)) < 800.
Proof.
  assert (Hw : 0 < 800) by lra. assert (Hh : 0 < 600) by lra.
  split; [exact Hw|]. split; [exact Hh|].
  apply (updateCurrent_in_viewport 800 600 0 0 0.5
           (mkDomainCurrent 799.9 10 100 0 0 0.001) Hw Hh).
Defined.

Lemma constrain_IZR (a c : Z) :
  (1 <= c)%Z ->
  exists k : Z, constrain (IZR a) 0 (IZR c - 1) = IZR k /\ (0 <= k <= c - 1)%Z
                /\ ((0 <= a <= c - 1)%Z -> k = a).
Proof.
  intros Hc. unfold constrain, Rmax, Rmin.
  assert (Hc1 : IZR c - 1 = IZR (c - 1)) by (rewrite minus_IZR; reflexivity).
  rewrite Hc1.
  destruct (Rle_dec (IZR a) (IZR (c - 1))) as [H1|H1];
    destruct (Rle_dec _ 0) as [H2|H2].
  - exists 0%Z. split; [reflexivity|]. split; [lia|]. intros Ha.
    apply le_IZR in H2. lia.
  - exists a. split; [reflexivity|]. apply le_IZR in H1.
    assert ((0 < a)%Z) by (apply lt_IZR; lra). split; [lia|]. reflexivity.
  - exists 0%Z. split; [reflexivity|]. split; [lia|]. intros Ha.
    apply le_IZR in H2. lia.
  - exists (c - 1)%Z. split; [reflexivity|]. split; [lia|]. intros Ha.
    exfalso. apply H1. apply IZR_le. lia.
Qed.

Lemma gridSize_covers (extent : R) :
  0 <= extent ->
  exists c : Z, gridSize extent = IZR c /\ (1 <= c)%Z
                /\ extent <= (IZR c - 1) * cellSize.
Proof.
  intros He. unfold gridSize, ceil, cellSize.
  exists (- Int_part (- (extent / 20)) + 1)%Z.
  destruct (Int_part_bounds (- (extent / 20))) as [Hlo Hhi].
  rewrite plus_IZR, opp_IZR. split; [reflexivity|].
  assert (Hq : 0 <= extent / 20) by (apply div_nonneg; lra).
  split.
  - assert (H : (Int_part (- (extent / 20)) < 1)%Z) by (apply lt_IZR; lra). lia.
  - lra.
Qed.

(** X18: The read of the flow field by a particle never leaves the array:
    for every position, also outside the viewport, the index
    [col + row * cols] is a whole number between 0 and
    [cols * rows - 1]; and for a particle inside the viewport the
    clamping is idle: it reads the cell that contains it.  The grid
    that [setup] and [windowResized] allocate, [ceil(extent / 20) + 1]
    per axis, has at least one cell and reaches past the viewport. *)
Theorem fieldIndex_in_bounds (cols rows : Z) (x y : R) :
  (1 <= cols)%Z -> (1 <= rows)%Z ->
  (exists k : Z, fieldIndex (IZR cols) (IZR rows) x y = IZR k /\ (0 <= k < cols * rows)%Z)
  /\ (forall width height,
        0 <= x <= width -> 0 <= y <= height ->
        IZR cols = gridSize width -> IZR rows = gridSize height ->
        fieldIndex (IZR cols) (IZR rows) x y
        = floor (x / cellSize) + floor (y / cellSize) * IZR cols)
  /\ (forall extent, 0 <= extent ->
        exists c : Z, gridSize extent = IZR c /\ (1 <= c)%Z
                      /\ extent <= (IZR c - 1) * cellSize).
Proof.
  intros Hc Hr. split; [|split].
  - unfold fieldIndex, floor. cbv zeta.
    destruct (constrain_IZR (Int_part (x / cellSize)) cols Hc) as (kc & -> & Hkc & _).
    destruct (constrain_IZR (Int_part (y / cellSize)) rows Hr) as (kr & -> & Hkr & _).
    exists (kc + kr * cols)%Z. rewrite plus_IZR, mult_IZR. split; [reflexivity|]. nia.
  - intros width height Hx Hy Hcw Hrh.
    assert (Hcell : forall v extent (c : Z), 0 <= v <= extent -> IZR c = gridSize extent ->
              (0 <= Int_part (v / cellSize) <= c - 1)%Z).
    { intros v extent c Hv Hg.
      destruct (gridSize_covers extent) as (c' & Hg' & _ & Hcov); [lra|].
      rewrite <- Hg in Hg'. apply eq_IZR in Hg'. subst c'.
      unfold cellSize in *.
      destruct (Int_part_bounds (v / 20)) as [Hlo Hhi].
      assert (Hq : 0 <= v / 20) by (apply div_nonneg; lra).
      assert (Hq' : v / 20 <= IZR c - 1) by lra.
      split.
      - assert ((-1 < Int_part (v / 20))%Z) by (apply lt_IZR; lra). lia.
      - assert ((Int_part (v / 20) < c)%Z) by (apply lt_IZR; lra). lia. }
    unfold fieldIndex, floor. cbv zeta.
    destruct (constrain_IZR (Int_part (x / cellSize)) cols Hc) as (kc & -> & _ & Hkc).
    destruct (constrain_IZR (Int_part (y / cellSize)) rows Hr) as (kr & -> & _ & Hkr).
    rewrite (Hkc (Hcell x width cols Hx Hcw)), (Hkr (Hcell y height rows Hy Hrh)).
    reflexivity.
  - apply gridSize_covers.
Qed.

Lemma fieldIndex_in_bounds_witness :
  (1 <= 41)%Z /\ (1 <= 31)%Z
  /\ exists k : Z, fieldIndex (IZR 41) (IZR 31) (-3) 5000 = IZR k /\ (0 <= k < 41 * 31)%Z.
Proof.
  assert (Hc : (1 <= 41)%Z) by lia. assert (Hr : (1 <= 31)%Z) by lia.
  split; [exact Hc|]. split; [exact Hr|].
  apply (fieldIndex_in_bounds 41 31 (-3) 5000 Hc Hr).
Defined.

Lemma lerp_convex (a b t lo hi : R) :
  0 <= t <= 1 -> lo <= a <= hi -> lo <= b <= hi -> lo <= lerp a b t <= hi.
Proof. unfold lerp. intros Ht Ha Hb. split; nra. Qed.

(** X19: The background gradient never leaves its palette: each channel of
    each row lies between the smallest and the largest of the four
    colours it blends, whatever the row and the depth; it is the
    surface colour where the shifted position is 0 or less and the
    abyss colour where it is 1 or more, and the three segments meet at
    the mid and deep colours. *)
Theorem gradient_within_palette (surface mid deep abyss height depthY y lo hi : R) :
  lo <= surface <= hi -> lo <= mid <= hi -> lo <= deep <= hi -> lo <= abyss <= hi ->
  lo <= gradient surface mid deep abyss height depthY y <= hi
  /\ (y / height + depthY * 0.5 <= 0 ->
        gradient surface mid deep abyss height depthY y = surface)
  /\ (1 <= y / height + depthY * 0.5 ->
        gradient surface mid deep abyss height depthY y = abyss)
  /\ (y / height + depthY * 0.5 = 0.33 ->
        gradient surface mid deep abyss height depthY y = mid)
  /\ (y / height + depthY * 0.5 = 0.66 ->
        gradient surface mid deep abyss height depthY y = deep).
Proof.
  intros Hs Hm Hd Ha. unfold gradient. cbv zeta.
  set (t := constrain (y / height + depthY * 0.5) 0 1).
  assert (Ht : 0 <= t <= 1).
  { unfold t, constrain. split; [apply Rmax_r|].
    apply Rmax_lub; [apply Rmin_r|lra]. }
  assert (Hlow : y / height + depthY * 0.5 <= 0 -> t = 0).
  { intros H. unfold t, constrain. rewrite Rmin_left by lra. apply Rmax_right. lra. }
  assert (Hhigh : 1 <= y / height + depthY * 0.5 -> t = 1).
  { intros H. unfold t, constrain. rewrite Rmin_right by lra. apply Rmax_left. lra. }
  assert (Hmid : forall v, 0 <= v <= 1 -> y / height + depthY * 0.5 = v -> t = v).
  { intros v Hv H. unfold t, constrain. rewrite H, Rmin_left by lra. apply Rmax_left. lra. }
  split; [|split; [|split; [|split]]].
  - destruct (Rlt_dec t 0.33); [|destruct (Rlt_dec t 0.66)];
      apply lerp_convex; try assumption; split; lra.
  - intros H. rewrite (Hlow H).
    destruct (Rlt_dec 0 0.33); [|lra]. unfold lerp. lra.
  - intros H. rewrite (Hhigh H).
    destruct (Rlt_dec 1 0.33); [lra|]. destruct (Rlt_dec 1 0.66); [lra|].
    unfold lerp. lra.
  - intros H. rewrite (Hmid 0.33 ltac:(lra) H).
    destruct (Rlt_dec 0.33 0.33); [lra|]. destruct (Rlt_dec 0.33 0.66); [|lra].
    unfold lerp. lra.
  - intros H. rewrite (Hmid 0.66 ltac:(lra) H).
    destruct (Rlt_dec 0.66 0.33); [lra|]. destruct (Rlt_dec 0.66 0.66); [lra|].
    unfold lerp. lra.
Qed.

Lemma gradient_within_palette_witness :
  1 <= 8 <= 8 /\ 1 <= 5 <= 8 /\ 1 <= 3 <= 8 /\ 1 <= 1 <= 8
  /\ 1 <= gradient 8 5 3 1 600 0.2 300 <= 8.
Proof.
  assert (H1 : 1 <= 8 <= 8) by lra. assert (H2 : 1 <= 5 <= 8) by lra.
  assert (H3 : 1 <= 3 <= 8) by lra. assert (H4 : 1 <= 1 <= 8) by lra.
  repeat (split; [assumption|]).
  apply (gradient_within_palette 8 5 3 1 600 0.2 300 1 8 H1 H2 H3 H4).
Defined.

End OceanGrid.

(** ** The fracture sketch: fragments *)

Section Fragments.

Import Fracture.

Lemma easeOutCubic_0 : easeOutCubic 0 = 0.
Proof. unfold easeOutCubic. ring. Qed.

Lemma easeOutCubic_1 : easeOutCubic 1 = 1.
Proof. unfold easeOutCubic. ring. Qed.

Lemma constrain_id (p : R) : 0 <= p <= 1 -> constrain p 0 1 = p.
Proof. intros Hp. unfold constrain. rewrite Rmin_left by lra. apply Rmax_left. lra. Qed.

Lemma constrain_above (p : R) : 1 <= p -> constrain p 0 1 = 1.
Proof. intros Hp. unfold constrain. rewrite Rmin_right by lra. apply Rmax_left. lra. Qed.

(** X20: [drawFragilityThreads] and [drawFragments] agree on how far a
    fragment has separated: although one function clamps before easing
    and the other after, both give a fragment the same separation, for
    every fracture level and every release threshold; that separation
    is always in [0, 1], and it is 1 once the fracture level has
    reached 1 (for a threshold in (0, 1)). *)
Theorem threadFracture_agrees (currentFracture crackDelay : R) :
  threadFracture currentFracture crackDelay = fractureAmount currentFracture crackDelay
  /\ 0 <= fractureAmount currentFracture crackDelay <= 1
  /\ (0 < crackDelay < 1 -> 1 <= currentFracture ->
        fractureAmount currentFracture crackDelay = 1).
Proof.
  unfold threadFracture, fractureAmount. cbv zeta.
  set (u := Rmax 0 ((currentFracture - crackDelay) / (1 - crackDelay))).
  assert (Hu : 0 <= u) by apply Rmax_l.
  assert (Hc : 0 <= constrain u 0 1 <= 1).
  { unfold constrain. split; [apply Rmax_r|]. apply Rmax_lub; [apply Rmin_r|lra]. }
  assert (Hrange : 0 <= easeOutCubic (constrain u 0 1) <= 1).
  { pose proof (easeOutCubic_mono 0 (constrain u 0 1) ltac:(lra)) as H0.
    pose proof (easeOutCubic_mono (constrain u 0 1) 1 ltac:(lra)) as H1.
    rewrite easeOutCubic_0 in H0. rewrite easeOutCubic_1 in H1. lra. }
  split; [|split; [exact Hrange|]].
  - destruct (Rle_lt_dec u 1) as [Hle|Hgt].
    + rewrite (constrain_id u) in * by lra. apply constrain_id. exact Hrange.
    + rewrite (constrain_above u) by lra. rewrite easeOutCubic_1.
      apply constrain_above.
      pose proof (easeOutCubic_mono 1 u ltac:(lra)) as H1.
      rewrite easeOutCubic_1 in H1. exact H1.
  - intros Hd Hcf.
    assert (H1 : 1 <= (currentFracture - crackDelay) / (1 - crackDelay)).
    { apply Rmult_le_reg_r with (r := 1 - crackDelay); [lra|].
      unfold Rdiv. rewrite Rmult_assoc, Rinv_l by lra. lra. }
    assert (Hu1 : 1 <= u) by (unfold u; eapply Rle_trans; [exact H1|apply Rmax_r]).
    rewrite (constrain_above u Hu1). apply easeOutCubic_1.
Qed.

(** X21: The fragments are laid out on the unit sphere, in equal steps of
    height: for every index the base position has norm 1, and for an
    index below the number of fragments its height is
    [1 - (2 i + 1) / n], strictly inside (-1, 1), so that consecutive
    fragments are [2 / n] apart in height (the equal-area spiral). *)
Theorem fragmentBase_on_sphere (n i : nat) :
  (i < n)%nat ->
  (fragmentBase (INR n) i).1.1 * (fragmentBase (INR n) i).1.1
  + (fragmentBase (INR n) i).1.2 * (fragmentBase (INR n) i).1.2
  + (fragmentBase (INR n) i).2 * (fragmentBase (INR n) i).2 = 1
  /\ (fragmentBase (INR n) i).2 = 1 - (2 * INR i + 1) / INR n
  /\ -1 < (fragmentBase (INR n) i).2 < 1
  /\ ((S i < n)%nat ->
        (fragmentBase (INR n) i).2 - (fragmentBase (INR n) (S i)).2 = 2 / INR n).
Proof.
  intros Hi.
  assert (Hnorm : forall theta phi,
            sin theta * cos phi * (sin theta * cos phi)
            + sin theta * sin phi * (sin theta * sin phi)
            + cos theta * cos theta = 1).
  { intros theta phi.
    pose proof (sin2_cos2 theta) as Ht. pose proof (sin2_cos2 phi) as Hp.
    unfold Rsqr in *. nra. }
  assert (Hz : forall j, (j < n)%nat ->
            cos (acos (1 - 2 * (INR j + 0.5) / INR n)) = 1 - (2 * INR j + 1) / INR n
            /\ -1 < 1 - (2 * INR j + 1) / INR n < 1).
  { intros j Hj.
    assert (Hn : 0 < INR n) by (apply lt_0_INR; lia).
    assert (Hjn : INR j + 1 <= INR n).
    { rewrite <- S_INR. apply le_INR. lia. }
    assert (Hj0 : 0 <= INR j) by apply pos_INR.
    assert (Hq : 0 < (2 * INR j + 1) / INR n < 2).
    { split.
      - apply Rdiv_lt_0_compat; lra.
      - apply Rmult_lt_reg_r with (r := INR n); [exact Hn|].
        unfold Rdiv. rewrite Rmult_assoc, Rinv_l by lra. lra. }
    assert (Heq : 1 - 2 * (INR j + 0.5) / INR n = 1 - (2 * INR j + 1) / INR n)
      by (replace (2 * (INR j + 0.5)) with (2 * INR j + 1) by lra; reflexivity).
    rewrite Heq. split; [apply cos_acos; lra|lra]. }
  unfold fragmentBase. cbv zeta. cbn [fst snd].
  destruct (Hz i Hi) as [Hzi Hri].
  split; [apply Hnorm|]. split; [exact Hzi|]. split; [rewrite Hzi; exact Hri|].
  intros Hsi. destruct (Hz (S i) Hsi) as [Hzs _]. rewrite Hzi, Hzs, S_INR.
  assert (Hn : 0 < INR n) by (apply lt_0_INR; lia). field. lra.
Qed.

Lemma fragmentBase_on_sphere_witness :
  (3 < 120)%nat
  /\ (fragmentBase (INR 120) 3).2 = 1 - (2 * INR 3 + 1) / INR 120.
Proof.
  assert (H : (3 < 120)%nat) by lia.
  split; [exact H|]. apply (fragmentBase_on_sphere 120 3 H).
Defined.

Lemma atan2_range (y x : R) : - PI < atan2 y x <= PI.
Proof.
  pose proof PI_RGT_0 as Hpi. unfold atan2.
  destruct (Rlt_dec 0 x) as [Hx|Hx].
  - pose proof (atan_bound (y / x)). lra.
  - destruct (Rlt_dec x 0) as [Hx'|Hx'].
    + pose proof (atan_bound (y / x)) as Hb.
      assert (Hinv : / x < 0) by (apply Rinv_lt_0_compat; exact Hx').
      destruct (Rle_dec 0 y) as [Hy|Hy].
      * assert (Hq : y / x <= 0) by (unfold Rdiv; nra).
        assert (Ha : atan (y / x) <= 0).
        { destruct Hq as [Hq|Hq].
          - left. rewrite <- atan_0. apply atan_increasing. exact Hq.
          - rewrite Hq, atan_0. lra. }
        lra.
      * assert (Hq : 0 < y / x) by (unfold Rdiv; nra).
        assert (Ha : 0 < atan (y / x)).
        { rewrite <- atan_0. apply atan_increasing. exact Hq. }
        lra.
    + destruct (Rlt_dec 0 y); [lra|]. destruct (Rlt_dec y 0); lra.
Qed.

Lemma fmod_small_IZR (k : Z) :
  (0 <= k <= 5)%Z -> exists j : Z, fmod (IZR k) 5 = IZR j /\ (0 <= j <= 4)%Z.
Proof.
  intros Hk. unfold fmod, trunc.
  assert (Hq : 0 <= IZR k / 5).
  { apply div_nonneg; [apply IZR_le; lia|lra]. }
  destruct (Rle_dec 0 (IZR k / 5)) as [_|Hn]; [|contradiction].
  destruct (Z.eq_dec k 5%Z) as [->|Hne].
  - replace (5 / 5) with (IZR 1) by (simpl; field).
    rewrite Int_part_IZR. exists 0%Z. split; [simpl; lra|lia].
  - assert (H0 : Int_part (IZR k / 5) = 0%Z).
    { apply Int_part_unique.
      assert (IZR k <= 4) by (apply IZR_le; lia). lra. }
    rewrite H0. exists k. split; [lra|lia].
Qed.

(** X22: Every fragment is assigned one of the five domains: whatever the
    base position, the index computed in [setup] is a whole number
    between 0 and 4, so [domains[frag.domain]] is always defined. *)
Theorem domainIdx_valid (baseX baseY : R) :
  exists k : Z, domainIdx baseX baseY = IZR k /\ (0 <= k <= 4)%Z.
Proof.
  pose proof PI_RGT_0 as Hpi. pose proof (atan2_range baseY baseX) as Ha.
  unfold domainIdx, Ocean.floor, map, TWO_PI.
  set (v := (atan2 baseY baseX + PI - 0) / (2 * PI - 0) * (5 - 0) + 0).
  assert (Hv : 0 < v <= 5).
  { unfold v.
    replace ((atan2 baseY baseX + PI - 0) / (2 * PI - 0) * (5 - 0) + 0)
      with ((atan2 baseY baseX + PI) * (5 / (2 * PI))) by (field; lra).
    assert (Hc : 0 < 5 / (2 * PI)) by (apply Rdiv_lt_0_compat; lra).
    split; [apply Rmult_lt_0_compat; lra|].
    replace 5 with ((2 * PI) * (5 / (2 * PI))) at 2 by (field; lra).
    apply Rmult_le_compat_r; lra. }
  destruct (Int_part_bounds v) as [Hlo Hhi].
  apply fmod_small_IZR. split.
  - assert ((-1 < Int_part v)%Z) by (apply lt_IZR; lra). lia.
  - apply le_IZR. lra.
Qed.

(** X23: A crack line of the fracture sketch is skipped while the fracture
    level is below half its threshold; from there on its visibility
    rises linearly from 0, is always in [0, 1], and is 1 from the
    threshold on. *)
Theorem crackVisibility_spec (currentFracture threshold : R) :
  0 < threshold ->
  (currentFracture < threshold * 0.5 -> crackVisibility currentFracture threshold = None)
  /\ (threshold * 0.5 <= currentFracture ->
        exists v, crackVisibility currentFracture threshold = Some v
                  /\ 0 <= v <= 1
                  /\ (currentFracture <= threshold ->
                        v = (currentFracture - threshold * 0.5) / (threshold * 0.5))
                  /\ (threshold <= currentFracture -> v = 1)).
Proof.
  intros Ht. unfold crackVisibility. cbv zeta. split.
  - intros Hlt. destruct (Rlt_dec _ _); [reflexivity|contradiction].
  - intros Hge. destruct (Rlt_dec _ _) as [Hlt|_]; [lra|].
    eexists. split; [reflexivity|].
    assert (Hmap : map currentFracture (threshold * 0.5) threshold 0 1
                   = (currentFracture - threshold * 0.5) / (threshold * 0.5)).
    { unfold map.
      replace (threshold - threshold * 0.5) with (threshold * 0.5) by lra.
      set (q := (currentFracture - threshold * 0.5) / (threshold * 0.5)). lra. }
    rewrite Hmap.
    assert (Hq0 : 0 <= (currentFracture - threshold * 0.5) / (threshold * 0.5)).
    { apply div_nonneg; lra. }
    split; [|split].
    + unfold constrain. split; [apply Rmax_r|]. apply Rmax_lub; [apply Rmin_r|lra].
    + intros Hle. apply constrain_id. split; [exact Hq0|].
      apply Rmult_le_reg_r with (r := threshold * 0.5); [lra|].
      unfold Rdiv. rewrite Rmult_assoc, Rinv_l by lra. lra.
    + intros Hge'. apply constrain_above.
      apply Rmult_le_reg_r with (r := threshold * 0.5); [lra|].
      unfold Rdiv. rewrite Rmult_assoc, Rinv_l by lra. lra.
Qed.

Lemma crackVisibility_spec_witness :
  0 < 0.4 /\ (0.1 < 0.4 * 0.5 -> crackVisibility 0.1 0.4 = None).
Proof.
  assert (H : 0 < 0.4) by lra.
  split; [exact H|]. apply (crackVisibility_spec 0.1 0.4 H).
Defined.

(** X24: The ambient particles are kept in a box that extends 50 past the
    viewport on each side: after the wrap a coordinate lies in
    [-50, extent + 50]; a coordinate already in the box is not moved,
    one that has left it re-enters at the opposite edge. *)
Theorem wrapAmbient_in_box (extent v : R) :
  0 <= extent ->
  - 50 <= wrapAmbient extent v <= extent + 50
  /\ (- 50 <= v <= extent + 50 -> wrapAmbient extent v = v)
  /\ (v < - 50 -> wrapAmbient extent v = extent + 50)
  /\ (extent + 50 < v -> wrapAmbient extent v = - 50).
Proof.
  intros He. unfold wrapAmbient. cbv zeta.
  destruct (Rlt_dec v (- 50)) as [H1|H1];
    destruct (Rgt_dec _ (extent + 50)) as [H2|H2]; repeat split; intros; lra.
Qed.

Lemma wrapAmbient_in_box_witness :
  0 <= 800 /\ - 50 <= wrapAmbient 800 (-51) <= 800 + 50.
Proof.
  assert (H : 0 <= 800) by lra.
  split; [exact H|]. apply (wrapAmbient_in_box 800 (-51) H).
Defined.

End Fragments.

(** ** The pulse sketch: what is plotted *)

Section PulseDisplay.

Import Pulse.

(** X25: The main pulse plots the tail of the history: the samples it
    reads are exactly the newest [min(history.length, floor(width /
    1.5))] samples, oldest first, so every read is inside the buffer
    and the last point plotted is the sample pushed in this frame. *)
Theorem plottedSamples_tail (width : R) (history : list R) :
  plottedSamples width history
  = drop (length history - visibleHistory width history) history
  /\ length (plottedSamples width history) = visibleHistory width history
  /\ (visibleHistory width history <= length history)%nat
  /\ (forall v, (0 < visibleHistory width history)%nat ->
        last history = Some v -> last (plottedSamples width history) = Some v).
Proof.
  assert (Hle : (visibleHistory width history <= length history)%nat)
    by (unfold visibleHistory; lia).
  assert (Heq : plottedSamples width history
                = drop (length history - visibleHistory width history) history).
  { unfold plottedSamples. cbv zeta.
    set (n := visibleHistory width history) in *.
    apply list_eq. intros i. rewrite list_lookup_fmap, lookup_drop.
    destruct (decide (i < n)%nat) as [Hi|Hi].
    - rewrite lookup_seq_lt by exact Hi. cbn [fmap option_fmap option_map Nat.add].
      destruct (lookup_lt_is_Some_2 history (length history - n + i)) as [v Hv]; [lia|].
      rewrite Hv. reflexivity.
    - rewrite lookup_seq_ge by lia. cbn.
      symmetry. apply lookup_ge_None_2. lia. }
  split; [exact Heq|]. split; [|split; [exact Hle|]].
  - rewrite Heq, length_drop. lia.
  - intros v Hpos Hlast. rewrite Heq.
    rewrite last_lookup in *. rewrite length_drop, lookup_drop.
    rewrite <- Hlast. f_equal. lia.
Qed.

(** X26: The beat period shortens as the edge score rises: it is
    [3000 - 2600 * edgeScore], so between 400 and 3000 ms for an edge
    score in [0, 1] and strictly decreasing; the BPM figure derived
    from it is then a whole number between 20 and 150. *)
Theorem beatInterval_range (edgeScore : R) :
  0 <= edgeScore <= 1 ->
  beatIntervalOf edgeScore = 3000 - 2600 * edgeScore
  /\ 400 <= beatIntervalOf edgeScore <= 3000
  /\ (forall e', edgeScore < e' -> beatIntervalOf e' < beatIntervalOf edgeScore)
  /\ (exists k : Z, bpm (beatIntervalOf edgeScore) = IZR k /\ (20 <= k <= 150)%Z).
Proof.
  intros He.
  assert (Hb : forall e, beatIntervalOf e = 3000 - 2600 * e).
  { intros e. unfold beatIntervalOf, map. field. }
  split; [apply Hb|]. split; [rewrite Hb; lra|]. split.
  - intros e' Hlt. rewrite !Hb. lra.
  - unfold bpm, Ocean.floor. rewrite Hb. eexists. split; [reflexivity|].
    set (bi := 3000 - 2600 * edgeScore).
    assert (Hbi : 400 <= bi <= 3000) by (unfold bi; lra).
    assert (Hq : 20 <= 60000 / bi <= 150).
    { split.
      - apply Rmult_le_reg_r with (r := bi); [lra|].
        unfold Rdiv. rewrite Rmult_assoc, Rinv_l by lra. lra.
      - apply Rmult_le_reg_r with (r := bi); [lra|].
        unfold Rdiv. rewrite Rmult_assoc, Rinv_l by lra. lra. }
    destruct (Int_part_bounds (60000 / bi)) as [Hlo Hhi].
    split.
    + assert ((19 < Int_part (60000 / bi))%Z) by (apply lt_IZR; lra). lia.
    + apply le_IZR. lra.
Qed.

Lemma beatInterval_range_witness :
  0 <= 0.5 <= 1 /\ beatIntervalOf 0.5 = 3000 - 2600 * 0.5.
Proof.
  assert (H : 0 <= 0.5 <= 1) by lra.
  split; [exact H|]. apply (beatInterval_range 0.5 H).
Defined.

Lemma indexOf_lower (d : string) (names : list string) : (-1 <= indexOf d names)%Z.
Proof.
  induction names as [|n names IH]; simpl; [lia|].
  destruct (String.eqb n d); [lia|].
  destruct (indexOf d names); lia.
Qed.

(** X27: [indexOf] finds a name where it stands: in a list without
    duplicates the name at position [i] has index [i], a name that is
    not in the list has index -1, and no other negative value is ever
    returned.  In [draw] this makes the noise offset of a domain its
    position in [getDomainNames()]. *)
Theorem indexOf_position (names : list string) :
  NoDup names ->
  (forall (i : nat) d, names !! i = Some d -> indexOf d names = Z.of_nat i)
  /\ (forall d, d ∉ names -> indexOf d names = (-1)%Z)
  /\ (forall d, (0 <= indexOf d names)%Z -> d ∈ names).
Proof.
  induction names as [|n names IH]; intros Hnd.
  - split; [intros i d H; discriminate H|]. split; [reflexivity|].
    simpl. intros d H. lia.
  - apply NoDup_cons in Hnd as [Hn Hnd]. destruct (IH Hnd) as (IH1 & IH2 & IH3).
    split; [|split].
    + intros [|i] d Hd; simpl in Hd |- *.
      * injection Hd as ->. rewrite String.eqb_refl. reflexivity.
      * destruct (String.eqb_spec n d) as [->|Hne].
        -- exfalso. apply Hn. eapply list_elem_of_lookup_2, Hd.
        -- rewrite (IH1 i d Hd). destruct (Z.of_nat i) eqn:Hz; lia.
    + intros d Hd. apply not_elem_of_cons in Hd as [Hne Hd]. simpl.
      destruct (String.eqb_spec n d) as [->|_]; [contradiction|].
      rewrite (IH2 d Hd). reflexivity.
    + intros d Hd. simpl in Hd.
      destruct (String.eqb_spec n d) as [->|Hne]; [apply list_elem_of_here|].
      apply list_elem_of_further, IH3.
      pose proof (indexOf_lower d names).
      destruct (indexOf d names); lia.
Qed.

Lemma indexOf_position_witness :
  NoDup Nerve.domainNames
  /\ indexOf "Information" Nerve.domainNames = 2%Z.
Proof.
  split; [apply domainNames_NoDup|].
  destruct (indexOf_position Nerve.domainNames domainNames_NoDup) as (H & _).
  apply (H 2%nat "Information"%string). reflexivity.
Defined.

Lemma substring_length (n : nat) (s : string) :
  (n <= String.length s)%nat -> String.length (String.substring 0 n s) = n.
Proof.
  revert s. induction n as [|n IH]; intros s Hn.
  - destruct s; reflexivity.
  - destruct s as [|c s]; simpl in *; [lia|]. rewrite IH by lia. reflexivity.
Qed.

Lemma append_length (s1 s2 : string) :
  String.length (String.append s1 s2) = (String.length s1 + String.length s2)%nat.
Proof. induction s1 as [|c s1 IH]; simpl; [reflexivity|]. rewrite IH. reflexivity. Qed.

(** X28: A legend label is never longer than ten characters: a name of at
    most ten characters is shown as it is, a longer one as its first
    eight characters followed by two dots. *)
Theorem legendLabel_length (d : string) :
  (String.length (legendLabel d) <= 10)%nat
  /\ ((String.length d <= 10)%nat -> legendLabel d = d)
  /\ ((10 < String.length d)%nat ->
        legendLabel d = String.append (String.substring 0 8 d) ".."
        /\ String.length (legendLabel d) = 10%nat).
Proof.
  unfold legendLabel.
  destruct (Nat.ltb_spec 10 (String.length d)) as [Hlong|Hshort].
  - assert (Hlen : String.length (String.append (String.substring 0 8 d) "..") = 10%nat).
    { rewrite append_length, substring_length by lia. reflexivity. }
    split; [rewrite Hlen; lia|]. split; [lia|]. intros _. split; [reflexivity|exact Hlen].
  - split; [exact Hshort|]. split; [reflexivity|]. lia.
Qed.

End PulseDisplay.
